(** * molgenis-api-client: request building and response normalisation

    A shallow embedding of [dist/molgenis-api-client.es.js] and the
    properties of its five operations [get], [post], [put], [delete_] and
    [postFile].

    The file has two parts.
    - The value-level development models JavaScript values as finite trees
      and promises as state-passing computations over a trace of observable
      events (requests handed to [fetch], response bodies decoded).
    - Module [Store] models the same request-building code over a store of
      mutable objects, so that in-place writes, allocation and aliasing are
      explicit. *)

From Stdlib Require Import ZArith Ascii String List Bool Lia.
From stdpp Require Import base tactics option list strings pretty.

Local Open Scope string_scope.
Local Open Scope list_scope.

(** ** Strings

    A string is a sequence of code units; header values are byte strings,
    so one [ascii] per code unit is exact for them. *)

Module Str.

Definition space : ascii := "032"%char.
Definition dquote : ascii := "034"%char.
Definition tab : ascii := "009"%char.

(** [String.prototype.toLowerCase] on one code unit of the range
    U+0000..U+00FF: the letters A..Z, and the Latin-1 capitals
    U+00C0..U+00DE except the multiplication sign U+00D7, move up by 32;
    every other code unit is its own lower case. *)
Definition lower_char (c : ascii) : ascii :=
  let n := nat_of_ascii c in
  if ((65 <=? n) && (n <=? 90))%nat then ascii_of_nat (n + 32)
  else if ((192 <=? n) && (n <=? 222) && negb (n =? 215))%nat
       then ascii_of_nat (n + 32)
  else c.

Fixpoint toLowerCase (s : string) : string :=
  match s with
  | EmptyString => EmptyString
  | String c s' => String (lower_char c) (toLowerCase s')
  end.

(** [s.split(sep)] for a separator of one code unit: the pieces of [s]
    between the occurrences of [sep], in order; never the empty list. *)
Fixpoint split (sep : ascii) (s : string) : list string :=
  match s with
  | EmptyString => [EmptyString]
  | String c s' =>
      if Ascii.eqb c sep then EmptyString :: split sep s'
      else match split sep s' with
           | [] => [String c EmptyString]
           | piece :: pieces => String c piece :: pieces
           end
  end.

(** [pieces.join(sep)]. *)
Fixpoint join (sep : string) (pieces : list string) : string :=
  match pieces with
  | [] => EmptyString
  | [piece] => piece
  | piece :: rest => piece ++ sep ++ join sep rest
  end.

(** The characters of [s] other than [c], in order. *)
Fixpoint remove_char (c : ascii) (s : string) : string :=
  match s with
  | EmptyString => EmptyString
  | String d s' =>
      if Ascii.eqb d c then remove_char c s' else String d (remove_char c s')
  end.

Fixpoint occurs (c : ascii) (s : string) : bool :=
  match s with
  | EmptyString => false
  | String d s' => Ascii.eqb d c || occurs c s'
  end.

End Str.

(** ** JavaScript values

    Values are finite trees.  An object is its class tag and the list of
    its own enumerable string-keyed properties in enumeration order; an
    array is an object of class [Array] whose properties are its indices
    ["0"], ["1"], ... in order (arrays are dense).  Numbers are integral.
    Inherited properties, symbols, accessors and the special keys
    [__proto__] and [constructor] are outside the model. *)

(** What [FormData.append] stores: a file-like value or a plain string. *)
Inductive FileLike : Type :=
| FileBlob (name : string) (content : string)
| FileText (text : string).

(** Host objects: neither arrays nor plain objects nor functions. *)
Inductive host : Type :=
| FormData (entries : list (string * FileLike))
| HostObject (class_name : string).

Inductive kind : Type :=
| Plain                 (* object literal, JSON object *)
| Array
| Function
| Host (h : host).

#[warnings="-register-all"]
Inductive JsVal : Type :=
| JUndefined
| JNull
| JBool (b : bool)
| JNum (n : Z)
| JStr (s : string)
| JObj (k : kind) (ps : list (string * JsVal)).

Definition props : Type := list (string * JsVal).

(** [index_key i] is the property key of array index [i]. *)
Definition index_key (i : nat) : string := pretty i.

(** The array literal [[v0, v1, ...]]. *)
Definition JArr (elems : list JsVal) : JsVal :=
  JObj Array (imap (fun i v => (index_key i, v)) elems).

(** Property lists, for any type [V] of property values. *)
Section Properties.
Context {V : Type}.

(** [key in object] for own properties. *)
Fixpoint has_prop (key : string) (ps : list (string * V)) : bool :=
  match ps with
  | [] => false
  | (k, _) :: ps' => String.eqb k key || has_prop key ps'
  end.

Fixpoint get_prop (key : string) (ps : list (string * V)) : option V :=
  match ps with
  | [] => None
  | (k, v) :: ps' => if String.eqb k key then Some v else get_prop key ps'
  end.

(** [object[key] = value]: overwrite in place, or add a last property. *)
Fixpoint set_prop (key : string) (value : V) (ps : list (string * V))
  : list (string * V) :=
  match ps with
  | [] => [(key, value)]
  | (k, v) :: ps' =>
      if String.eqb k key then (k, value) :: ps'
      else (k, v) :: set_prop key value ps'
  end.

Definition keys (ps : list (string * V)) : list string := map fst ps.

End Properties.

(** [object[key]]: a missing property reads as [undefined]. *)
Definition read_prop (key : string) (ps : props) : JsVal :=
  match get_prop key ps with Some v => v | None => JUndefined end.

(** [v.k] for a value: [undefined] on a missing key or a non-object. *)
Definition field (key : string) (v : JsVal) : option JsVal :=
  match v with
  | JObj _ ps => get_prop key ps
  | _ => None
  end.

(** ** lodash [merge]

    [merge] is imported from lodash.  The definitions below follow lodash
    4.17 ([createAssigner], [baseMerge], [baseMergeDeep],
    [assignMergeValue]) on the values of the model: source properties that
    are [undefined] are skipped if the destination has the key, arrays and
    plain objects are merged recursively, every other value is assigned.
    Values are trees here, so the cycle stack of [baseMergeDeep] never
    finds an entry and is left out; module [Store] has it. *)

Definition isObject (v : JsVal) : bool :=
  match v with JObj _ _ => true | _ => false end.

Definition isArray (v : JsVal) : bool :=
  match v with JObj Array _ => true | _ => false end.

Definition isPlainObject (v : JsVal) : bool :=
  match v with JObj Plain _ => true | _ => false end.

Definition isFunction (v : JsVal) : bool :=
  match v with JObj Function _ => true | _ => false end.

Definition MAX_SAFE_INTEGER : Z := 9007199254740991.

(** [isLength]: an integral number between 0 and 2^53 - 1. *)
Definition isLength (v : JsVal) : bool :=
  match v with
  | JNum n => ((0 <=? n) && (n <=? MAX_SAFE_INTEGER))%Z
  | _ => false
  end.

(** [isArrayLikeObject] on a value that is not an array: an object other
    than a function whose [length] is a valid length. *)
Definition isArrayLikeObject (v : JsVal) : bool :=
  match v with
  | JObj Function _ => false
  | JObj _ ps => isLength (read_prop "length" ps)
  | _ => false
  end.

(** [copyArray(source)]: the array of [source[0]] ... [source[length-1]]. *)
Definition copyArray (v : JsVal) : JsVal :=
  match v with
  | JObj _ ps =>
      match read_prop "length" ps with
      | JNum n =>
          JArr (map (fun i => read_prop (index_key i) ps) (seq 0 (Z.to_nat n)))
      | _ => JArr []
      end
  | _ => JArr []
  end.

(** [assignMergeValue(object, key, value)]: assign unless [value] is
    [undefined] and [object] already has [key].  (The test that skips
    assigning a value the key already holds has no effect on the result.) *)
Definition assignMergeValue (object : props) (key : string) (value : JsVal)
  : props :=
  match value with
  | JUndefined => if has_prop key object then object else set_prop key value object
  | _ => set_prop key value object
  end.

(** The value an object destination starts from in [baseMergeDeep];
    [objValue] is [object[key]], the result is lodash's [newValue] before
    the recursive merge, for a source value of class [srcKind]. *)
Definition mergeTarget (objValue : JsVal) (srcKind : kind) : JsVal :=
  match srcKind with
  | Array =>
      if isArray objValue then objValue
      else if isArrayLikeObject objValue then copyArray objValue
      else JObj Array []
  | _ =>
      if isObject objValue && negb (isFunction objValue) then objValue
      else JObj Plain []
  end.

(** [baseMergeDeep(object, source, key)]: the value to assign at [key],
    from [objValue = object[key]] and [srcValue = source[key]].  Arrays and
    plain objects are merged property by property into the target (the
    loop is [baseMerge]'s [baseFor]); every other source value is taken as
    it is. *)
Fixpoint baseMergeDeep (objValue srcValue : JsVal) {struct srcValue} : JsVal :=
  match srcValue with
  | JObj (Array as k) sps | JObj (Plain as k) sps =>
      match mergeTarget objValue k with
      | JObj tk tps =>
          JObj tk
            (fold_left
               (fun (object : props) (p : string * JsVal) =>
                  let (key, v) := p in
                  assignMergeValue object key
                    (baseMergeDeep (read_prop key object) v))
               sps tps)
      | other => other
      end
  | _ => srcValue
  end.

(** The own enumerable properties [baseFor(source, ..., keysIn)] visits:
    those of an object; the characters of a string under their indices;
    none for any other value. *)
Fixpoint string_props (i : nat) (s : string) : props :=
  match s with
  | EmptyString => []
  | String c s' => (index_key i, JStr (String c EmptyString)) :: string_props (S i) s'
  end.

Definition own_props (source : JsVal) : props :=
  match source with
  | JObj _ ps => ps
  | JStr s => string_props 0 s
  | _ => []
  end.

(** The value the iteratee of [baseMerge] assigns at a key: the deep
    merge for an object source value, the source value itself otherwise. *)
Definition mergeValue (objValue srcValue : JsVal) : JsVal :=
  if isObject srcValue then baseMergeDeep objValue srcValue else srcValue.

(** [baseMerge(object, source)].  (Its first test, [object === source],
    compares identities; a destination is never one of its sources here.) *)
Definition baseMerge (object : props) (source : JsVal) : props :=
  fold_left
    (fun (object : props) (p : string * JsVal) =>
       let (key, srcValue) := p in
       assignMergeValue object key (mergeValue (read_prop key object) srcValue))
    (own_props source) object.

(** JavaScript truthiness, for [if (source)]. *)
Definition truthy (v : JsVal) : bool :=
  match v with
  | JUndefined | JNull => false
  | JBool b => b
  | JNum n => negb (n =? 0)%Z
  | JStr s => negb (String.eqb s "")
  | JObj _ _ => true
  end.

(** [merge(object, ...sources)] for an object destination: the sources are
    applied from left to right, falsy ones skipped. *)
Definition merge (object : props) (sources : list JsVal) : props :=
  fold_left
    (fun object source => if truthy source then baseMerge object source else object)
    sources object.

(** ** The client: request configuration *)

Definition defaultOptions : JsVal :=
  JObj Plain
    [ ("headers",
       JObj Plain [ ("Accept", JStr "application/json");
                    ("Content-Type", JStr "application/json");
                    ("X-Requested-With", JStr "XMLHttpRequest") ]);
      ("credentials", JStr "same-origin") ].

Definition mergeOptions (method : string) (options : JsVal) : JsVal :=
  JObj Plain (merge [("method", JStr method)] [defaultOptions; options]).

(** ** Transport responses *)

(** The [Headers] object of a response, through its one method the client
    calls: [get(name)], [None] for JavaScript's [null]. *)
Record Headers : Type := { Headers_get : string -> option string }.

(** What [response.json()] settles with: the decoded value, or the
    [SyntaxError] of a body that is not JSON. *)
Inductive Decode : Type :=
| Decoded (json : JsVal)
| Malformed (message : string).

Record Response : Type := {
  headers : Headers;
  status : Z;
  body : Decode
}.

(** [response.ok]: the status is in the range 200..299 (Fetch standard). *)
Definition ok (response : Response) : bool :=
  ((200 <=? status response) && (status response <=? 299))%Z.

(** A [Headers] object built from name/value pairs; names compare without
    regard to case, the first match is returned. *)
Definition headers_of (l : list (string * string)) : Headers :=
  {| Headers_get := fun name =>
       snd <$> find (fun p => String.eqb (Str.toLowerCase (fst p))
                                           (Str.toLowerCase name)) l |}.

Definition isJsonResponse (response : Response) : bool :=
  match Headers_get (headers response) "content-type" with
  | None => false
  | Some contentType =>
      if String.eqb contentType "" then false
      else
        let normalizedContentType :=
          Str.join ""
            (Str.split Str.dquote
               (Str.join "" (Str.split Str.space (Str.toLowerCase contentType))))
        in
        String.eqb normalizedContentType "application/json"
        || String.eqb normalizedContentType "application/json;charset=utf-8"
  end.

(** The normalisation as the specification words it: lower-case the value,
    remove every space, remove every double quote. *)
Definition spec_normalize (contentType : string) : string :=
  Str.remove_char Str.dquote
    (Str.remove_char Str.space (Str.toLowerCase contentType)).

(** ** Promises

    What a promise settles with: a decoded JSON value, a raw response, or
    an error object raised by the platform. *)
Inductive Value : Type :=
| JsonValue (json : JsVal)
| RawResponse (response : Response)
| ErrorValue (name message : string).

Inductive Settled (A : Type) : Type :=
| Fulfilled (value : A)
| Rejected (reason : Value).
Arguments Fulfilled {A} value.
Arguments Rejected {A} reason.

(** The observable events of a call, in order. *)
Inductive event : Type :=
| Dispatched (url : string) (options : JsVal)   (* fetch(url, options) *)
| BodyDecoded (response : Response).            (* response.json() *)

Definition trace : Type := list event.

(** A promise is run against the trace so far and yields the extended
    trace and how it settled. *)
Definition Promise (A : Type) : Type := trace -> trace * Settled A.

Definition Promise_resolve {A} (value : A) : Promise A :=
  fun t => (t, Fulfilled value).

Definition Promise_reject {A} (reason : Value) : Promise A :=
  fun t => (t, Rejected reason).

(** [p.then(f)] with one callback: a rejection passes through. *)
Definition then_ {A B} (p : Promise A) (f : A -> Promise B) : Promise B :=
  fun t =>
    match p t with
    | (t', Fulfilled a) => f a t'
    | (t', Rejected reason) => (t', Rejected reason)
    end.

(** [response.json()]. *)
Definition Response_json (response : Response) : Promise JsVal :=
  fun t =>
    (t ++ [BodyDecoded response],
     match body response with
     | Decoded json => Fulfilled json
     | Malformed message => Rejected (ErrorValue "SyntaxError" message)
     end).

Definition handleResponse (response : Response) : Promise Value :=
  if isJsonResponse response then
    then_ (Response_json response) (fun json =>
      if ok response then Promise_resolve (JsonValue json)
      else Promise_reject (JsonValue json))
  else
    if ok response then Promise_resolve (RawResponse response)
    else Promise_reject (RawResponse response).

(** [new FormData()] and [form.append(name, value)]. *)
Definition FormData_new : JsVal := JObj (Host (FormData [])) [].

Definition FormData_append (form : JsVal) (name : string) (value : FileLike)
  : JsVal :=
  match form with
  | JObj (Host (FormData entries)) ps =>
      JObj (Host (FormData (entries ++ [(name, value)]))) ps
  | other => other
  end.

Section Client.

(** The network: how the transport settles the request [(url, options)]
    after the events so far. *)
Variable transport : string -> JsVal -> trace -> Settled Response.

Definition fetch (url : string) (options : JsVal) : Promise Response :=
  fun t => (t ++ [Dispatched url options], transport url options t).

Definition get (url : string) (options_ : JsVal) : Promise Value :=
  let options := mergeOptions "GET" options_ in
  then_ (then_ (fetch url options) handleResponse)
        (fun response => Promise_resolve response).

Definition post (url : string) (options_ : JsVal) : Promise Value :=
  let options := mergeOptions "POST" options_ in
  then_ (then_ (fetch url options) handleResponse)
        (fun response => Promise_resolve response).

Definition put (url : string) (options_ : JsVal) : Promise Value :=
  let options := mergeOptions "PUT" options_ in
  then_ (then_ (fetch url options) handleResponse)
        (fun response => Promise_resolve response).

Definition delete_ (url : string) (options_ : JsVal) : Promise Value :=
  let options := mergeOptions "DELETE" options_ in
  then_ (then_ (fetch url options) handleResponse)
        (fun response => Promise_resolve response).

Definition postFile (url : string) (file : FileLike) : Promise Value :=
  let form := FormData_append FormData_new "file" file in
  let options :=
    JObj Plain [ ("body", form);
                 ("method", JStr "POST");
                 ("credentials", JStr "same-origin") ] in
  then_ (then_ (fetch url options) handleResponse)
        (fun response => Promise_resolve response).

(** The shape the specification gives to the four operations: build the
    options with [mergeOptions(METHOD, options)], dispatch, pipe the
    response through [handleResponse]. *)
Definition spec_request (METHOD : string) (url : string) (options : JsVal)
  : Promise Value :=
  then_ (fetch url (mergeOptions METHOD options)) handleResponse.

End Client.

(** ** Well-formed values and sample data *)

(** No key occurs twice in an object, at any depth.  Every JavaScript
    object satisfies this; the list representation has to be told. *)
Fixpoint distinct (l : list string) : bool :=
  match l with
  | [] => true
  | k :: l' => negb (existsb (String.eqb k) l') && distinct l'
  end.

Fixpoint wf (v : JsVal) : bool :=
  match v with
  | JObj _ ps =>
      distinct (keys ps)
      && (fix all (ps : list (string * JsVal)) : bool :=
            match ps with
            | [] => true
            | (_, v') :: ps' => wf v' && all ps'
            end) ps
  | _ => true
  end.

Definition wf_props (ps : props) : bool := forallb (fun p => wf (snd p)) ps.

(** Whitespace of JavaScript in the range of header bytes, other than the
    space U+0020: tab, line feed, vertical tab, form feed, carriage return
    and the no-break space. *)
Definition other_whitespace (c : ascii) : bool :=
  existsb (Nat.eqb (nat_of_ascii c)) [9; 10; 11; 12; 13; 160]%nat.

(** The error body of the documentation of [handleResponse]. *)
Definition ds16_error : JsVal :=
  JObj Plain
    [ ("errors",
       JArr [ JObj Plain [ ("message", JStr "Group name 'test' is not available");
                           ("code", JStr "DS16") ] ]) ].

(** A response with the given status, content type and decoded body. *)
Definition json_response (status : Z) (contentType : string) (json : JsVal)
  : Response :=
  {| headers := headers_of [("Content-Type", contentType)];
     status := status;
     body := Decoded json |}.

(** A transport that answers every request with [response]. *)
Definition always (response : Response) : string -> JsVal -> trace -> Settled Response :=
  fun _ _ _ => Fulfilled response.

(** [application/json; charset="UTF-8"]: mixed case, a space, and double
    quotes around the charset. *)
Definition quoted_content_type : string :=
  "application/json; charset=" ++ String Str.dquote ("UTF-8" ++ String Str.dquote "").

(** [Application/JSON ;  Charset = "Utf-8"]: more of each. *)
Definition spaced_content_type : string :=
  "Application/JSON ;  Charset = " ++ String Str.dquote ("Utf-8" ++ String Str.dquote "").

(** [application/json;<TAB>charset=utf-8]. *)
Definition tabbed_content_type : string :=
  "application/json;" ++ String Str.tab "charset=utf-8".

(** The requests handed to [fetch] in a trace, in order. *)
Fixpoint requests (t : trace) : list (string * JsVal) :=
  match t with
  | [] => []
  | Dispatched url options :: t' => (url, options) :: requests t'
  | BodyDecoded _ :: t' => requests t'
  end.

(** The header mapping of a request configuration. *)
Definition header (name : string) (config : JsVal) : option JsVal :=
  match field "headers" config with
  | Some hs => field name hs
  | None => None
  end.

(** [options] is omitted, or is a plain mapping that has none of the keys
    [method] and [credentials] and whose [headers], if any, is a plain
    mapping with none of the three default header names. *)
Definition leaves_defaults (options : JsVal) : bool :=
  match options with
  | JUndefined => true
  | JObj Plain ps =>
      negb (has_prop "method" ps)
      && negb (has_prop "credentials" ps)
      && match get_prop "headers" ps with
         | None => true
         | Some (JObj Plain hs) =>
             negb (has_prop "Accept" hs)
             && negb (has_prop "Content-Type" hs)
             && negb (has_prop "X-Requested-With" hs)
         | Some _ => false
         end
  | _ => false
  end.

(** Running [p] after the trace [t] hands the transport exactly the
    request [(url, config)]. *)
Definition dispatches (p : Promise Value) (t : trace) (url : string)
  (config : JsVal) : Prop :=
  requests (fst (p t)) = requests t ++ [(url, config)].

(** What [key] holds after [assignMergeValue(object, key, value)], from
    what it held before. *)
Definition assigned (old : option JsVal) (value : JsVal) : option JsVal :=
  match value, old with
  | JUndefined, Some v => Some v
  | _, _ => Some value
  end.

(** The configuration before the caller's options are merged in. *)
Definition base_config (method : string) : props :=
  merge [("method", JStr method)] [defaultOptions].

(** Sample caller options: [{headers: {Accept: 'text/plain'}}] and
    [{method: undefined}]. *)
Definition accept_text_plain : JsVal :=
  JObj Plain [("headers", JObj Plain [("Accept", JStr "text/plain")])].

Definition method_undefined : JsVal := JObj Plain [("method", JUndefined)].

(** A transport without a network: every request fails. *)
Definition offline : string -> JsVal -> trace -> Settled Response :=
  fun _ _ _ => Rejected (ErrorValue "TypeError" "Failed to fetch").

(** ** The store model

    Objects live in a store and are named by their location; a property
    holds a primitive or a reference.  Allocation extends the store at its
    end, assignment overwrites the object at a location.  [merge] writes
    into its destination in place, as lodash does. *)

Module Store.

Abbreviation loc := nat.

Inductive val : Type :=
| VUndefined
| VNull
| VBool (b : bool)
| VNum (n : Z)
| VStr (s : string)
| VRef (l : loc).

Record object : Type := { class : kind; fields : list (string * val) }.

Abbreviation heap := (list object).

(** [new]: the object takes the next free location. *)
Definition alloc (h : heap) (o : object) : heap * val :=
  (h ++ [o], VRef (length h)).

Definition deref (h : heap) (v : val) : option object :=
  match v with
  | VRef l => h !! l
  | _ => None
  end.

(** [object[key]], [undefined] for a missing key or a missing object. *)
Definition read (h : heap) (l : loc) (key : string) : val :=
  match h !! l with
  | Some o => match get_prop key (fields o) with Some v => v | None => VUndefined end
  | None => VUndefined
  end.

(** [object[key] = value]. *)
Definition write (h : heap) (l : loc) (key : string) (value : val) : heap :=
  match h !! l with
  | Some o => <[l := {| class := class o; fields := set_prop key value (fields o) |}]> h
  | None => h
  end.

Definition isObject (v : val) : bool :=
  match v with VRef _ => true | _ => false end.

Definition has_class (h : heap) (v : val) (k : kind) : bool :=
  match deref h v, k with
  | Some {| class := Plain |}, Plain => true
  | Some {| class := Array |}, Array => true
  | Some {| class := Function |}, Function => true
  | _, _ => false
  end.

Definition isArray (h : heap) (v : val) : bool := has_class h v Array.
Definition isPlainObject (h : heap) (v : val) : bool := has_class h v Plain.
Definition isFunction (h : heap) (v : val) : bool := has_class h v Function.

Definition isLength (v : val) : bool :=
  match v with
  | VNum n => ((0 <=? n) && (n <=? MAX_SAFE_INTEGER))%Z
  | _ => false
  end.

Definition isArrayLikeObject (h : heap) (v : val) : bool :=
  match v with
  | VRef l => negb (isFunction h v) && isLength (read h l "length")
  | _ => false
  end.

(** [copyArray(source)]: a new array of [source[0]] ... [source[length-1]]. *)
Definition copyArray (h : heap) (v : val) : heap * val :=
  match v with
  | VRef l =>
      match read h l "length" with
      | VNum n =>
          alloc h {| class := Array;
                     fields := map (fun i => (index_key i, read h l (index_key i)))
                                   (seq 0 (Z.to_nat n)) |}
      | _ => alloc h {| class := Array; fields := [] |}
      end
  | _ => alloc h {| class := Array; fields := [] |}
  end.

(** [assignMergeValue(object, key, value)].  (The test that skips assigning
    a value the key already holds has no effect on the store.) *)
Definition assignMergeValue (h : heap) (object : loc) (key : string)
  (value : val) : heap :=
  match value with
  | VUndefined =>
      match h !! object with
      | Some o => if has_prop key (fields o) then h else write h object key value
      | None => h
      end
  | _ => write h object key value
  end.

(** The cycle stack of [baseMergeDeep]: source object to merged value. *)
Definition stack : Type := list (loc * val).

Fixpoint stack_get (st : stack) (l : loc) : option val :=
  match st with
  | [] => None
  | (l', v) :: st' => if Nat.eqb l' l then Some v else stack_get st' l
  end.

(** [baseMergeDeep(object, source, key, mergeFunc, stack)]; the recursive
    call goes through [mergeFunc], as in lodash. *)
Definition baseMergeDeep (mergeFunc : heap -> loc -> loc -> stack -> heap)
  (h : heap) (object source : loc) (key : string) (st : stack) : heap :=
  let objValue := read h object key in
  let srcValue := read h source key in
  match srcValue with
  | VRef src =>
      match stack_get st src with
      | Some stacked => assignMergeValue h object key stacked
      | None =>
          if isArray h srcValue then
            let (h1, newValue) :=
              if isArray h objValue then (h, objValue)
              else if isArrayLikeObject h objValue then copyArray h objValue
              else alloc h {| class := Array; fields := [] |} in
            match newValue with
            | VRef target =>
                let h2 := mergeFunc h1 target src ((src, newValue) :: st) in
                assignMergeValue h2 object key newValue
            | _ => assignMergeValue h1 object key newValue
            end
          else if isPlainObject h srcValue then
            let (h1, newValue) :=
              if isObject objValue && negb (isFunction h objValue) then (h, objValue)
              else alloc h {| class := Plain; fields := [] |} in
            match newValue with
            | VRef target =>
                let h2 := mergeFunc h1 target src ((src, newValue) :: st) in
                assignMergeValue h2 object key newValue
            | _ => assignMergeValue h1 object key newValue
            end
          else assignMergeValue h object key srcValue
      end
  | _ => assignMergeValue h object key srcValue
  end.

(** The keys [baseFor(source, ..., keysIn)] visits, taken when the loop
    starts.  The keys of an object are pairwise distinct; [remove_dups]
    makes that hold of every property list. *)
Definition keysIn (h : heap) (source : loc) : list string :=
  match h !! source with
  | Some o => remove_dups (keys (fields o))
  | None => []
  end.

(** [baseMerge(object, source, stack)].  The recursion follows references
    of the store, so it is bounded by [fuel]; out of fuel the store is
    returned as it stands. *)
Fixpoint baseMerge (fuel : nat) (h : heap) (object source : loc) (st : stack)
  : heap :=
  match fuel with
  | O => h
  | S fuel' =>
      if Nat.eqb object source then h
      else
        fold_left
          (fun h key =>
             let srcValue := read h source key in
             if isObject srcValue
             then baseMergeDeep (baseMerge fuel') h object source key st
             else assignMergeValue h object key srcValue)
          (keysIn h source) h
  end.

(** A primitive string source is visited through its characters. *)
Fixpoint string_fields (i : nat) (s : string) : list (string * val) :=
  match s with
  | EmptyString => []
  | String c s' => (index_key i, VStr (String c EmptyString)) :: string_fields (S i) s'
  end.

Definition truthy (v : val) : bool :=
  match v with
  | VUndefined | VNull => false
  | VBool b => b
  | VNum n => negb (n =? 0)%Z
  | VStr s => negb (String.eqb s "")
  | VRef _ => true
  end.

(** One source of [merge(object, ...sources)]. *)
Definition merge_source (fuel : nat) (h : heap) (object : loc) (source : val)
  : heap :=
  if truthy source then
    match source with
    | VRef src => baseMerge fuel h object src []
    | VStr s =>
        fold_left (fun h p => assignMergeValue h object (fst p) (snd p))
                  (string_fields 0 s) h
    | _ => h
    end
  else h.

Definition merge (fuel : nat) (h : heap) (object : loc) (sources : list val)
  : heap :=
  fold_left (fun h source => merge_source fuel h object source) sources h.

(** Module initialisation: [var defaultOptions = { headers: {...},
    credentials: 'same-origin' }].  Returns the store and the reference the
    variable holds. *)
Definition default_headers : object :=
  {| class := Plain;
     fields := [ ("Accept", VStr "application/json");
                 ("Content-Type", VStr "application/json");
                 ("X-Requested-With", VStr "XMLHttpRequest") ] |}.

Definition default_options (headers_ref : val) : object :=
  {| class := Plain;
     fields := [ ("headers", headers_ref); ("credentials", VStr "same-origin") ] |}.

Definition load (h : heap) : heap * val :=
  let (h1, headers_ref) := alloc h default_headers in
  alloc h1 (default_options headers_ref).

(** ** Reading the store

    [modifies c ks h h']: from [h] to [h'] the store has only grown, the
    objects of [h] other than [c] are as they were, and so are the
    properties of [c] other than those named in [ks]. *)
Definition modifies (c : loc) (ks : list string) (h h' : heap) : Prop :=
  length h <= length h'
  /\ (forall l, l < length h -> l <> c -> h' !! l = h !! l)
  /\ (forall k, ~ In k ks -> read h' c k = read h c k).

(** A string or nothing. *)
Definition is_text (v : val) : bool :=
  match v with
  | VStr _ | VUndefined => true
  | _ => false
  end.

(** The object at [l] is a plain object whose properties are strings. *)
Definition text_object (h : heap) (l : loc) : Prop :=
  l < length h
  /\ has_class h (VRef l) Plain = true
  /\ forall k, is_text (read h l k) = true.

(** The configuration under construction at [d]: every property is a
    primitive, except that [headers] may hold a text object of its own at
    the next location. *)
Definition config_shape (d : loc) (h : heap) : Prop :=
  d < length h
  /\ (forall k, k <> "headers" -> isObject (read h d k) = false)
  /\ (isObject (read h d "headers") = false
      \/ (read h d "headers" = VRef (S d) /\ text_object h (S d))).

(** [t] holds strings, as it did in [h], and nothing else has changed. *)
Definition text_step (t : loc) (h h' : heap) : Prop :=
  length h' = length h
  /\ (forall l, l <> t -> h' !! l = h !! l)
  /\ (forall k, is_text (read h' t k) = true)
  /\ (forall cls, has_class h' (VRef t) cls = has_class h (VRef t) cls).

(** What the configuration at [d] holds at [key]: a primitive, or its own
    text object of headers. *)
Definition config_value (d : loc) (h : heap) (key : string) : Prop :=
  isObject (read h d key) = false
  \/ (key = "headers" /\ read h d key = VRef (S d) /\ text_object h (S d)).

(** One step of the loop changes [d] at [key], possibly the headers object
    when [key] is [headers], and nothing else that existed. *)
Definition config_step (d : loc) (key : string) (h h' : heap) : Prop :=
  length h <= length h'
  /\ (forall l, l < length h -> l <> d -> l <> S d -> h' !! l = h !! l)
  /\ (forall k, k <> key -> read h' d k = read h d k)
  /\ (key <> "headers" -> S d < length h -> h' !! S d = h !! S d).

(** The objects below [d] are as they were. *)
Definition below (d : loc) (h h' : heap) : Prop :=
  length h <= length h' /\ forall l, l < d -> h' !! l = h !! l.

(** A value the configuration may hold: a primitive, a reference to a new
    object, or a reference to an object of the store [h0] that is neither
    a plain object nor an array (such objects are assigned, not copied). *)
Definition shared_ok (h0 : heap) (v : val) : Prop :=
  forall l, v = VRef l -> l < length h0 ->
    has_class h0 v Plain = false /\ has_class h0 v Array = false.

(** ** Fuel

    Every reference held in the store is to an object of the store. *)
Definition closed (h : heap) : Prop :=
  forall l key l', read h l key = VRef l' -> l' < length h.

(** The sources on the cycle stack are distinct objects below [n]. *)
Definition stack_ok (n : nat) (st : stack) : Prop :=
  NoDup (map fst st) /\ Forall (fun s => s < n) (map fst st).

(** [baseMerge] with [fuel] and with one more unit give the same store,
    for a source in the original store [h0], a destination above it
    without object properties at the source's keys, and a cycle stack
    that leaves room for [fuel] more sources. *)
Definition enough (h0 : heap) (fuel : nat) : Prop :=
  forall h c s st,
    below (length h0) h0 h -> s < length h0 -> length h0 <= c -> c < length h ->
    (forall k, In k (keysIn h s) -> isObject (read h c k) = false) ->
    stack_ok (length h0) st -> length h0 < fuel + length st ->
    baseMerge fuel h c s st = baseMerge (S fuel) h c s st.

(** The destination value at [key] is a primitive, or a text object above
    the first [n] objects. *)
Definition simple_value (n : nat) (h : heap) (c : loc) (key : string) : Prop :=
  isObject (read h c key) = false
  \/ exists t, read h c key = VRef t /\ n <= t /\ text_object h t.

(** ** Values of the store as trees

    [store_of j h] builds the value [j] in the store, innermost objects
    first; [reify fuel h v] reads the value [v] back, following references
    to the depth [fuel]. *)
Fixpoint store_of (j : JsVal) (h : heap) : heap * val :=
  match j with
  | JUndefined => (h, VUndefined)
  | JNull => (h, VNull)
  | JBool b => (h, VBool b)
  | JNum n => (h, VNum n)
  | JStr s => (h, VStr s)
  | JObj k ps =>
      let (h1, fs) :=
        (fix build (ps : list (string * JsVal)) (h : heap)
           : heap * list (string * val) :=
           match ps with
           | [] => (h, [])
           | (key, j') :: ps' =>
               let (h1, v) := store_of j' h in
               let (h2, fs) := build ps' h1 in
               (h2, (key, v) :: fs)
           end) ps h in
      alloc h1 {| class := k; fields := fs |}
  end.

Fixpoint reify (fuel : nat) (h : heap) (v : val) : JsVal :=
  match v with
  | VUndefined => JUndefined
  | VNull => JNull
  | VBool b => JBool b
  | VNum n => JNum n
  | VStr s => JStr s
  | VRef l =>
      match fuel, h !! l with
      | S fuel', Some o =>
          JObj (class o) (map (fun p => (fst p, reify fuel' h (snd p))) (fields o))
      | _, _ => JUndefined
      end
  end.

Section Instance.

(** The module variable [defaultOptions]; the module never assigns it. *)
Variable defaultOptions : loc.

Definition mergeOptions (fuel : nat) (method : string) (options : val)
  (h : heap) : heap * val :=
  let (h1, target) := alloc h {| class := Plain; fields := [("method", VStr method)] |} in
  (merge fuel h1 (length h) [VRef defaultOptions; options], target).

(** A request handed to [fetch].  The operations below build the request
    in the store and return it; what happens to the response is the
    subject of [handleResponse] above and involves no object of the
    module. *)
Definition request : Type := string * val.

Definition get (fuel : nat) (url : string) (options_ : val) (h : heap)
  : heap * request :=
  let (h1, options) := mergeOptions fuel "GET" options_ h in
  (h1, (url, options)).

Definition post (fuel : nat) (url : string) (options_ : val) (h : heap)
  : heap * request :=
  let (h1, options) := mergeOptions fuel "POST" options_ h in
  (h1, (url, options)).

Definition put (fuel : nat) (url : string) (options_ : val) (h : heap)
  : heap * request :=
  let (h1, options) := mergeOptions fuel "PUT" options_ h in
  (h1, (url, options)).

Definition delete_ (fuel : nat) (url : string) (options_ : val) (h : heap)
  : heap * request :=
  let (h1, options) := mergeOptions fuel "DELETE" options_ h in
  (h1, (url, options)).

Definition postFile (url : string) (file : FileLike) (h : heap)
  : heap * request :=
  let (h1, form) := alloc h {| class := Host (FormData [("file", file)]); fields := [] |} in
  let (h2, options) :=
    alloc h1 {| class := Plain;
                fields := [ ("body", form);
                            ("method", VStr "POST");
                            ("credentials", VStr "same-origin") ] |} in
  (h2, (url, options)).

(** A call of one of the five operations, with its arguments. *)
Inductive call : Type :=
| CallGet (fuel : nat) (url : string) (options : val)
| CallPost (fuel : nat) (url : string) (options : val)
| CallPut (fuel : nat) (url : string) (options : val)
| CallDelete (fuel : nat) (url : string) (options : val)
| CallPostFile (url : string) (file : FileLike).

Definition exec (c : call) (h : heap) : heap * request :=
  match c with
  | CallGet fuel url options => get fuel url options h
  | CallPost fuel url options => post fuel url options h
  | CallPut fuel url options => put fuel url options h
  | CallDelete fuel url options => delete_ fuel url options h
  | CallPostFile url file => postFile url file h
  end.

(** What a program using the module does: call an operation, or build an
    object of its own. *)
Inductive step : Type :=
| Call (c : call)
| New (o : object).

Definition do_step (s : step) (h : heap) : heap :=
  match s with
  | Call c => fst (exec c h)
  | New o => fst (alloc h o)
  end.

(** The stores after each step of a run, in order. *)
Fixpoint run (steps : list step) (h : heap) : list heap :=
  match steps with
  | [] => []
  | s :: steps' => let h' := do_step s h in h' :: run steps' h'
  end.

(** [defaultOptions] and its headers hold the values the module gave
    them. *)
Definition installed (h : heap) : Prop :=
  exists headers_loc : loc,
    h !! defaultOptions = Some (default_options (VRef headers_loc))
    /\ h !! headers_loc = Some default_headers.

End Instance.

(** The configuration [mergeOptions(method, options)] builds in a store
    that holds the loaded module and the caller's [options], read back as
    a tree. *)
Definition config_of (fuel : nat) (method : string) (options : JsVal) : JsVal :=
  match load [] with
  | (h0, VRef defaultOptions) =>
      let (h1, o) := store_of options h0 in
      let (h2, config) := mergeOptions defaultOptions fuel method o h1 in
      reify fuel h2 config
  | _ => JUndefined
  end.

(** Sample caller options: a body with an array and an [undefined]
    entry, and headers given as an array. *)
Definition sample_body : JsVal :=
  JObj Plain
    [ ("headers", JObj Plain [("Accept", JStr "text/plain"); ("X-Trace", JUndefined)]);
      ("method", JUndefined);
      ("body", JArr [JNum 1; JObj Plain [("a", JUndefined); ("b", JArr [])]]) ].

Definition sample_array_headers : JsVal :=
  JObj Plain [("headers", JArr [JStr "a"; JStr "b"]); ("credentials", JStr "include")].

Definition sample_host_body : JsVal :=
  JObj Plain
    [ ("body", JObj (Host (FormData [("file", FileText "a,b")])) []);
      ("signal", JObj (Host (HostObject "AbortSignal")) [("aborted", JBool false)]);
      ("headers", JObj Plain [("Content-Type", JObj Function []); ("Accept", JNull)]) ].

End Store.

(** * The exported client

    [molgenisApiClient] is the object [{get, post, put, delete_, postFile}];
    a call selects one of its five operations. *)
Inductive Call : Type :=
| Get (url : string) (options : JsVal)
| Post (url : string) (options : JsVal)
| Put (url : string) (options : JsVal)
| Delete (url : string) (options : JsVal)
| PostFile (url : string) (file : FileLike).

Definition molgenisApiClient
  (transport : string -> JsVal -> trace -> Settled Response) (c : Call)
  : Promise Value :=
  match c with
  | Get url options => get transport url options
  | Post url options => post transport url options
  | Put url options => put transport url options
  | Delete url options => delete_ transport url options
  | PostFile url file => postFile transport url file
  end.

(** The url and the configuration a call hands to [fetch]. *)
Definition call_url (c : Call) : string :=
  match c with
  | Get url _ | Post url _ | Put url _ | Delete url _ | PostFile url _ => url
  end.

Definition call_config (c : Call) : JsVal :=
  match c with
  | Get _ options => mergeOptions "GET" options
  | Post _ options => mergeOptions "POST" options
  | Put _ options => mergeOptions "PUT" options
  | Delete _ options => mergeOptions "DELETE" options
  | PostFile _ file =>
      JObj Plain [ ("body", FormData_append FormData_new "file" file);
                   ("method", JStr "POST");
                   ("credentials", JStr "same-origin") ]
  end.

(** A transport that fails every request with [reason]. *)
Definition failing (reason : Value) : string -> JsVal -> trace -> Settled Response :=
  fun _ _ _ => Rejected reason.

(** A response whose body is not JSON although its content type says so. *)
Definition malformed_response (status : Z) (message : string) : Response :=
  {| headers := headers_of [("Content-Type", "application/json")];
     status := status;
     body := Malformed message |}.

(** The local [normalizedContentType] of [isJsonResponse]: the header
    value lower-cased, split at spaces and joined, split at double quotes
    and joined. *)
Definition normalizedContentType (contentType : string) : string :=
  Str.join ""
    (Str.split Str.dquote
       (Str.join "" (Str.split Str.space (Str.toLowerCase contentType)))).

(** A response with the given [content-type] header. *)
Definition typed_response (contentType : string) : Response :=
  json_response 200 contentType JNull.

(** A property that is present and not [undefined]. *)
Definition is_defined (v : option JsVal) : bool :=
  match v with
  | None | Some JUndefined => false
  | Some _ => true
  end.

(** The request configuration without caller options. *)
Definition default_config (method : string) : JsVal :=
  JObj Plain
    [ ("method", JStr method);
      ("headers",
       JObj Plain [ ("Accept", JStr "application/json");
                    ("Content-Type", JStr "application/json");
                    ("X-Requested-With", JStr "XMLHttpRequest") ]);
      ("credentials", JStr "same-origin") ].

(** A store with the loaded module and caller options that refer to
    themselves: [var o = {}; o.self = o; o.headers = o]. *)
Definition cyclic_store : list Store.object :=
  fst (Store.load [])
  ++ [ {| Store.class := Plain;
          Store.fields := [("self", Store.VRef 2); ("headers", Store.VRef 2)] |} ].

(** * Properties *)

(** ** Strings *)

Lemma join_split_cons (sep : ascii) (s : string) :
  exists piece pieces, Str.split sep s = piece :: pieces.
Proof.
  destruct s as [|c s]; simpl; [eauto|].
  destruct (Ascii.eqb c sep); [eauto|].
  destruct (Str.split sep s); eauto.
Qed.

Lemma join_empty_cons (piece : string) (pieces : list string) :
  Str.join "" (piece :: pieces) = (piece ++ Str.join "" pieces)%string.
Proof.
  destruct pieces as [|q pieces]; simpl; [|reflexivity].
  induction piece as [|c piece IH]; [reflexivity|].
  change (String c piece = String c (piece ++ "")%string). now rewrite <- IH.
Qed.

(** Splitting at a character and joining with the empty string removes the
    occurrences of the character. *)
Lemma join_split (sep : ascii) (s : string) :
  Str.join "" (Str.split sep s) = Str.remove_char sep s.
Proof.
  induction s as [|c s IH]; [reflexivity|].
  cbn [Str.split Str.remove_char].
  destruct (Ascii.eqb c sep).
  - rewrite join_empty_cons. exact IH.
  - destruct (join_split_cons sep s) as (piece & pieces & E).
    rewrite E in *. rewrite join_empty_cons in IH |- *.
    rewrite <- IH. reflexivity.
Qed.

Lemma isJsonResponse_spec (response : Response) (contentType : string) :
  Headers_get (headers response) "content-type" = Some contentType ->
  isJsonResponse response =
    String.eqb (spec_normalize contentType) "application/json"
    || String.eqb (spec_normalize contentType) "application/json;charset=utf-8".
Proof.
  intros E. unfold isJsonResponse, spec_normalize. rewrite E.
  rewrite !join_split.
  destruct (String.eqb_spec contentType "") as [->|_]; reflexivity.
Qed.

Lemma occurs_toLowerCase (c : ascii) (s : string) :
  Str.occurs c s = true -> Str.occurs (Str.lower_char c) (Str.toLowerCase s) = true.
Proof.
  induction s as [|d s IH]; simpl; [discriminate|].
  intros H. apply orb_true_iff in H as [H|H].
  - apply Ascii.eqb_eq in H. subst d. now rewrite Ascii.eqb_refl.
  - rewrite (IH H). apply orb_true_r.
Qed.

Lemma occurs_remove_char (c sep : ascii) (s : string) :
  c <> sep -> Str.occurs c s = true -> Str.occurs c (Str.remove_char sep s) = true.
Proof.
  intros Hne. induction s as [|d s IH]; simpl; [discriminate|].
  intros H. apply orb_true_iff in H as [H|H].
  - apply Ascii.eqb_eq in H. subst d.
    destruct (Ascii.eqb_spec c sep); [contradiction|]. simpl.
    now rewrite Ascii.eqb_refl.
  - destruct (Ascii.eqb d sep); simpl; rewrite (IH H); [reflexivity|apply orb_true_r].
Qed.

Lemma other_whitespace_lower (c : ascii) :
  other_whitespace c = true ->
  Str.lower_char c = c /\ c <> Str.space /\ c <> Str.dquote.
Proof.
  destruct c as [[] [] [] [] [] [] [] []]; cbv; intros H;
    first [discriminate H | repeat split; discriminate].
Qed.

Lemma other_whitespace_not_json (c : ascii) :
  other_whitespace c = true ->
  Str.occurs c "application/json" = false
  /\ Str.occurs c "application/json;charset=utf-8" = false.
Proof.
  destruct c as [[] [] [] [] [] [] [] []]; cbv; intros H;
    first [discriminate H | split; reflexivity].
Qed.

Lemma occurs_differ (c : ascii) (s t : string) :
  Str.occurs c s = true -> Str.occurs c t = false -> String.eqb s t = false.
Proof.
  intros Hs Ht. destruct (String.eqb_spec s t) as [->|_]; [congruence|reflexivity].
Qed.

Lemma occurs_spec_normalize (c : ascii) (s : string) :
  other_whitespace c = true -> Str.occurs c s = true ->
  Str.occurs c (spec_normalize s) = true.
Proof.
  intros Hc Hs. destruct (other_whitespace_lower c Hc) as (Hl & Hsp & Hq).
  unfold spec_normalize.
  apply occurs_remove_char; [exact Hq|].
  apply occurs_remove_char; [exact Hsp|].
  rewrite <- Hl. now apply occurs_toLowerCase.
Qed.

(** ** Responses *)

(** C3.  [isJsonResponse] is false without a [content-type] header;
    with one it is true exactly when the value, lower-cased and with all
    spaces and all double quotes removed, is [application/json] or
    [application/json;charset=utf-8].  The mixed-case, spaced and quoted
    value [application/json; charset="UTF-8"] is JSON, [text/html] is not. *)
Theorem isJsonResponse_content_type :
  (forall response,
      Headers_get (headers response) "content-type" = None ->
      isJsonResponse response = false)
  /\ (forall response contentType,
        Headers_get (headers response) "content-type" = Some contentType ->
        (isJsonResponse response = true <->
         spec_normalize contentType = "application/json"
         \/ spec_normalize contentType = "application/json;charset=utf-8"))
  /\ isJsonResponse (json_response 200 quoted_content_type JNull) = true
  /\ isJsonResponse (json_response 200 spaced_content_type JNull) = true
  /\ isJsonResponse (json_response 200 "text/html" JNull) = false.
Proof.
  split; [|split; [|repeat split; reflexivity]].
  - intros response E. unfold isJsonResponse. now rewrite E.
  - intros response contentType E.
    rewrite (isJsonResponse_spec response contentType E), orb_true_iff.
    now rewrite !String.eqb_eq.
Qed.

Lemma isJsonResponse_content_type_witness :
  isJsonResponse
    {| headers := headers_of []; status := 200; body := Decoded JNull |} = false
  /\ (isJsonResponse (json_response 404 "application/json" JNull) = true <->
      spec_normalize "application/json" = "application/json"
      \/ spec_normalize "application/json" = "application/json;charset=utf-8").
Proof.
  split.
  - apply (proj1 isJsonResponse_content_type). reflexivity.
  - apply (proj1 (proj2 isJsonResponse_content_type)). reflexivity.
Defined.

(** C6.  A response that is not JSON settles with the response object
    itself: fulfilled when the status is 2xx, rejected otherwise.  The trace
    is unchanged, so the body is not decoded, and the outcome does not
    depend on what decoding would give. *)
Theorem handleResponse_raw (response : Response) (t : trace) :
  isJsonResponse response = false ->
  handleResponse response t =
    (t, if ok response then Fulfilled (RawResponse response)
        else Rejected (RawResponse response)).
Proof.
  intros E. unfold handleResponse. rewrite E. now destruct (ok response).
Qed.

Lemma handleResponse_raw_witness :
  handleResponse (json_response 500 "text/html" JNull) [] =
    ([], Rejected (RawResponse (json_response 500 "text/html" JNull))).
Proof.
  apply (handleResponse_raw (json_response 500 "text/html" JNull) []).
  reflexivity.
Defined.

(** C10.  Normalisation removes the space U+0020 and no other
    whitespace: a [content-type] value that contains a tab (or a line feed,
    vertical tab, form feed, carriage return or no-break space) is not
    JSON, whatever the rest of the value, and the response is handled as a
    raw response.  [application/json;<TAB>charset=utf-8] is not JSON while
    [application/json; charset=utf-8] is. *)
Theorem isJsonResponse_other_whitespace :
  (forall response contentType c,
      Headers_get (headers response) "content-type" = Some contentType ->
      other_whitespace c = true ->
      Str.occurs c contentType = true ->
      isJsonResponse response = false
      /\ forall t, handleResponse response t =
           (t, if ok response then Fulfilled (RawResponse response)
               else Rejected (RawResponse response)))
  /\ other_whitespace Str.tab = true
  /\ other_whitespace Str.space = false
  /\ isJsonResponse (json_response 200 tabbed_content_type JNull) = false
  /\ isJsonResponse (json_response 200 "application/json; charset=utf-8" JNull) = true.
Proof.
  split; [|repeat split; reflexivity].
  intros response contentType c E Hc Hocc.
  assert (F : isJsonResponse response = false).
  { rewrite (isJsonResponse_spec response contentType E).
    pose proof (occurs_spec_normalize c contentType Hc Hocc) as Hn.
    destruct (other_whitespace_not_json c Hc) as (H1 & H2).
    now rewrite (occurs_differ c _ _ Hn H1), (occurs_differ c _ _ Hn H2). }
  split; [exact F|]. intros t. unfold handleResponse. rewrite F.
  now destruct (ok response).
Qed.

Lemma isJsonResponse_other_whitespace_witness :
  isJsonResponse (json_response 200 tabbed_content_type JNull) = false.
Proof.
  apply (proj1 isJsonResponse_other_whitespace
           (json_response 200 tabbed_content_type JNull)
           tabbed_content_type Str.tab); reflexivity.
Defined.

(** C1.  For a JSON response, [handleResponse] decodes the body and
    settles with the decoded value [json]: fulfilled when the status is
    2xx, rejected otherwise (a body that does not decode rejects with the
    decoder's error).  When the transport answers a [get] with a non-2xx
    JSON response whose body is the DS16 error object, [get] rejects with
    exactly that object. *)
Theorem handleResponse_json :
  (forall response t,
      isJsonResponse response = true ->
      handleResponse response t =
        (t ++ [BodyDecoded response],
         match body response with
         | Decoded json =>
             if ok response then Fulfilled (JsonValue json)
             else Rejected (JsonValue json)
         | Malformed message => Rejected (ErrorValue "SyntaxError" message)
         end))
  /\ (forall transport url options response t,
        transport url (mergeOptions "GET" options) t = Fulfilled response ->
        isJsonResponse response = true ->
        ok response = false ->
        body response = Decoded ds16_error ->
        snd (get transport url options t) = Rejected (JsonValue ds16_error)).
Proof.
  assert (H : forall response t,
             isJsonResponse response = true ->
             handleResponse response t =
               (t ++ [BodyDecoded response],
                match body response with
                | Decoded json =>
                    if ok response then Fulfilled (JsonValue json)
                    else Rejected (JsonValue json)
                | Malformed message => Rejected (ErrorValue "SyntaxError" message)
                end)).
  { intros response t E.
    unfold handleResponse, then_, Response_json. rewrite E.
    destruct (body response); [|reflexivity]. now destruct (ok response). }
  split; [exact H|].
  intros transport url options response t T E O D.
  unfold get, then_ at 1 2, fetch. rewrite T.
  rewrite (H response _ E), D, O. reflexivity.
Qed.

Lemma handleResponse_json_witness :
  handleResponse (json_response 200 "application/json" (JStr "x")) [] =
    ([BodyDecoded (json_response 200 "application/json" (JStr "x"))],
     Fulfilled (JsonValue (JStr "x")))
  /\ snd (get (always (json_response 400 "application/json" ds16_error))
              "/api/v2/group" JUndefined [])
     = Rejected (JsonValue ds16_error).
Proof.
  split.
  - apply (proj1 handleResponse_json
             (json_response 200 "application/json" (JStr "x")) []);
      reflexivity.
  - apply (proj2 handleResponse_json
             (always (json_response 400 "application/json" ds16_error))
             "/api/v2/group" JUndefined
             (json_response 400 "application/json" ds16_error) []);
      reflexivity.
Defined.

(** ** The operations *)

(** A final [.then(response => response)] changes nothing. *)
Lemma then_identity {A} (p : Promise A) (t : trace) :
  then_ p (fun a => Promise_resolve a) t = p t.
Proof.
  unfold then_, Promise_resolve. destruct (p t) as [t' [a|reason]]; reflexivity.
Qed.

(** C7.  [get], [post], [put] and [delete_] are one function of the
    method constant: each behaves as [mergeOptions(METHOD, options)]
    followed by dispatch and [handleResponse], with ['GET'], ['POST'],
    ['PUT'] and ['DELETE'] respectively. *)
Theorem operations_differ_in_method
  (transport : string -> JsVal -> trace -> Settled Response)
  (url : string) (options : JsVal) (t : trace) :
  get transport url options t = spec_request transport "GET" url options t
  /\ post transport url options t = spec_request transport "POST" url options t
  /\ put transport url options t = spec_request transport "PUT" url options t
  /\ delete_ transport url options t = spec_request transport "DELETE" url options t.
Proof.
  unfold get, post, put, delete_, spec_request.
  repeat split; apply then_identity.
Qed.

(** What a call dispatches: the pipeline [fetch(url, options)
    .then(handleResponse)] hands exactly one request to the transport. *)
Lemma requests_app (t1 t2 : trace) :
  requests (t1 ++ t2) = requests t1 ++ requests t2.
Proof.
  induction t1 as [|[url options|response] t1 IH]; simpl; [reflexivity| |exact IH].
  now rewrite IH.
Qed.

Lemma handleResponse_requests (response : Response) (t : trace) :
  requests (fst (handleResponse response t)) = requests t.
Proof.
  unfold handleResponse, then_, Response_json, Promise_resolve, Promise_reject.
  destruct (isJsonResponse response).
  - destruct (body response), (ok response); simpl;
      rewrite requests_app; simpl; apply app_nil_r.
  - now destruct (ok response).
Qed.

Lemma pipeline_requests
  (transport : string -> JsVal -> trace -> Settled Response)
  (url : string) (options : JsVal) (t : trace) :
  requests (fst (then_ (fetch transport url options) handleResponse t))
  = requests t ++ [(url, options)].
Proof.
  unfold then_, fetch. destruct (transport url options t) as [response|reason].
  - rewrite handleResponse_requests, requests_app. reflexivity.
  - simpl. rewrite requests_app. reflexivity.
Qed.

(** C5.  [postFile(url, file)] dispatches one request, to [url], whose
    body is a form with the single field [file] bound to [file], whose
    method is POST and credentials mode same-origin, and which has no
    [headers] at all (so none of Accept, Content-Type, X-Requested-With);
    the response goes through [handleResponse]. *)
Theorem postFile_request
  (transport : string -> JsVal -> trace -> Settled Response)
  (url : string) (file : FileLike) (t : trace) :
  exists options,
    postFile transport url file t
      = then_ (fetch transport url options) handleResponse t
    /\ requests (fst (postFile transport url file t)) = requests t ++ [(url, options)]
    /\ field "body" options = Some (JObj (Host (FormData [("file", file)])) [])
    /\ field "method" options = Some (JStr "POST")
    /\ field "credentials" options = Some (JStr "same-origin")
    /\ field "headers" options = None
    /\ header "Accept" options = None
    /\ header "Content-Type" options = None
    /\ header "X-Requested-With" options = None
    /\ keys (own_props options) = ["body"; "method"; "credentials"].
Proof.
  eexists. split; [unfold postFile; apply then_identity|].
  split; [|repeat split; reflexivity].
  unfold postFile. rewrite then_identity. apply pipeline_requests.
Qed.

(** ** Property lists *)

Section PropertyFacts.
Context {V : Type}.
Implicit Types (ps : list (string * V)) (k key : string) (v : V).

Lemma get_prop_set_eq key v ps : get_prop key (set_prop key v ps) = Some v.
Proof.
  induction ps as [|[k w] ps IH]; simpl.
  - now rewrite String.eqb_refl.
  - destruct (String.eqb_spec k key) as [->|Hne]; simpl.
    + now rewrite String.eqb_refl.
    + destruct (String.eqb_spec k key); [contradiction|exact IH].
Qed.

Lemma get_prop_set_ne k key v ps :
  k <> key -> get_prop key (set_prop k v ps) = get_prop key ps.
Proof.
  intros Hne. induction ps as [|[k' w] ps IH]; simpl.
  - destruct (String.eqb_spec k key); [contradiction|reflexivity].
  - destruct (String.eqb_spec k' k) as [->|Hk]; simpl.
    + destruct (String.eqb_spec k key); [contradiction|reflexivity].
    + destruct (String.eqb_spec k' key); [reflexivity|exact IH].
Qed.

Lemma has_prop_get key ps :
  has_prop key ps = match get_prop key ps with Some _ => true | None => false end.
Proof.
  induction ps as [|[k w] ps IH]; simpl; [reflexivity|].
  destruct (String.eqb k key); [reflexivity|exact IH].
Qed.

Lemma has_prop_keys key ps : has_prop key ps = existsb (String.eqb key) (keys ps).
Proof.
  induction ps as [|[k w] ps IH]; simpl; [reflexivity|].
  now rewrite IH, (String.eqb_sym k key).
Qed.

Lemma get_prop_In key v ps : get_prop key ps = Some v -> In (key, v) ps.
Proof.
  induction ps as [|[k w] ps IH]; simpl; [discriminate|].
  destruct (String.eqb_spec k key) as [->|_].
  - intros [= ->]. now left.
  - intros H. right. now apply IH.
Qed.

Lemma set_prop_absent key v ps :
  has_prop key ps = false -> set_prop key v ps = ps ++ [(key, v)].
Proof.
  induction ps as [|[k w] ps IH]; simpl; [reflexivity|].
  destruct (String.eqb k key); simpl; [discriminate|].
  intros H. now rewrite IH.
Qed.

Lemma has_prop_app key ps ps' :
  has_prop key (ps ++ ps') = has_prop key ps || has_prop key ps'.
Proof.
  induction ps as [|[k w] ps IH]; simpl; [reflexivity|].
  now rewrite IH, orb_assoc.
Qed.

End PropertyFacts.

Lemma distinct_cons (k : string) (l : list string) :
  distinct (k :: l) = true <-> existsb (String.eqb k) l = false /\ distinct l = true.
Proof.
  simpl. rewrite andb_true_iff, negb_true_iff. reflexivity.
Qed.

Lemma wf_JObj (k : kind) (ps : props) :
  wf (JObj k ps) = distinct (keys ps) && wf_props ps.
Proof.
  simpl. f_equal. induction ps as [|[key v] ps IH]; simpl; [reflexivity|].
  now rewrite IH.
Qed.

Lemma wf_props_In (key : string) (v : JsVal) (ps : props) :
  wf_props ps = true -> In (key, v) ps -> wf v = true.
Proof.
  unfold wf_props. rewrite forallb_forall. intros H Hin. exact (H _ Hin).
Qed.

(** Induction on values, with the hypothesis for every property value of
    an object. *)
Lemma JsVal_props_ind (P : JsVal -> Prop) :
  P JUndefined -> P JNull -> (forall b, P (JBool b)) -> (forall n, P (JNum n)) ->
  (forall s, P (JStr s)) ->
  (forall k ps, Forall (fun p => P (snd p)) ps -> P (JObj k ps)) ->
  forall v, P v.
Proof.
  intros Hu Hn Hb Hz Hs Ho.
  fix IH 1. intros [| |b|n|s|k ps];
    [exact Hu|exact Hn|apply Hb|apply Hz|apply Hs|].
  apply Ho. induction ps as [|[key v] ps IHps]; constructor; [apply IH|exact IHps].
Qed.

(** ** The merge loop

    Both loops of [merge] assign, for each source property [(key, v)] in
    turn, the value [f object[key] v] at [key]. *)

Lemma assign_get_eq (key : string) (v : JsVal) (ps : props) :
  get_prop key (assignMergeValue ps key v) = assigned (get_prop key ps) v.
Proof.
  unfold assignMergeValue, assigned.
  destruct v; try apply get_prop_set_eq.
  rewrite has_prop_get. destruct (get_prop key ps) eqn:E; [exact E|].
  apply get_prop_set_eq.
Qed.

Lemma assign_get_ne (k key : string) (v : JsVal) (ps : props) :
  k <> key -> get_prop key (assignMergeValue ps k v) = get_prop key ps.
Proof.
  intros Hne. unfold assignMergeValue.
  destruct v; try (now apply get_prop_set_ne).
  destruct (has_prop k ps); [reflexivity|now apply get_prop_set_ne].
Qed.

Lemma existsb_eqb_In (key : string) (l : list string) :
  existsb (String.eqb key) l = false -> ~ In key l.
Proof.
  intros H Hin. assert (E : existsb (String.eqb key) l = true).
  { apply existsb_exists. exists key. split; [exact Hin|apply String.eqb_refl]. }
  congruence.
Qed.

Section MergeLoop.

Variable f : JsVal -> JsVal -> JsVal.

Local Abbreviation loop :=
  (fold_left (fun (object : props) (p : string * JsVal) =>
                let (key, v) := p in
                assignMergeValue object key (f (read_prop key object) v))).

(** A key that the source does not have keeps its value. *)
Lemma loop_frame (key : string) (sps object : props) :
  existsb (String.eqb key) (keys sps) = false ->
  get_prop key (loop sps object) = get_prop key object.
Proof.
  revert object. induction sps as [|[k v] sps IH]; intros object H; [reflexivity|].
  simpl in H. apply orb_false_iff in H as [Hk Hrest].
  simpl. rewrite (IH _ Hrest). apply assign_get_ne.
  intros ->. now rewrite String.eqb_refl in Hk.
Qed.

(** A key that the source has, once, is assigned from its source value
    and the value the destination had. *)
Lemma loop_at (key : string) (v : JsVal) (sps object : props) :
  distinct (keys sps) = true ->
  In (key, v) sps ->
  get_prop key (loop sps object)
  = assigned (get_prop key object) (f (read_prop key object) v).
Proof.
  revert object. induction sps as [|[k w] sps IH]; intros object Hd Hin; [destruct Hin|].
  change (keys ((k, w) :: sps)) with (k :: keys sps) in Hd.
  apply distinct_cons in Hd as [Hk Hd]. simpl.
  destruct Hin as [[= -> ->]|Hin].
  - rewrite (loop_frame _ _ _ Hk). apply assign_get_eq.
  - assert (Hne : k <> key).
    { intros ->. apply (existsb_eqb_In _ _ Hk).
      apply (in_map fst) in Hin. exact Hin. }
    rewrite (IH _ Hd Hin). unfold read_prop.
    now rewrite (assign_get_ne k key _ _ Hne).
Qed.

(** Merging into a destination that has none of the source's keys, when
    [f] returns its source value, appends the source's properties. *)
Lemma loop_copy (sps object : props) :
  distinct (keys sps) = true ->
  (forall k, In k (keys sps) -> has_prop k object = false) ->
  Forall (fun p => f JUndefined (snd p) = snd p) sps ->
  loop sps object = object ++ sps.
Proof.
  revert object. induction sps as [|[k v] sps IH]; intros object Hd Hfresh Hf.
  - symmetry. apply app_nil_r.
  - change (keys ((k, v) :: sps)) with (k :: keys sps) in Hd.
    apply distinct_cons in Hd as [Hk Hd].
    inversion Hf as [|? ? Hv Hf']; subst. simpl in Hv.
    assert (Hko : has_prop k object = false) by (apply Hfresh; now left).
    assert (Hstep : assignMergeValue object k (f (read_prop k object) v)
                    = object ++ [(k, v)]).
    { unfold read_prop. rewrite has_prop_get in Hko.
      destruct (get_prop k object) eqn:E; [discriminate|].
      rewrite Hv. unfold assignMergeValue.
      rewrite has_prop_get, E.
      destruct v; apply set_prop_absent; now rewrite has_prop_get, E. }
    simpl. rewrite Hstep, (IH _ Hd); [now rewrite <- app_assoc| |exact Hf'].
    intros k' Hin. rewrite has_prop_app, (Hfresh k'); [|now right].
    simpl. rewrite orb_false_r.
    destruct (String.eqb_spec k k') as [->|_]; [|reflexivity].
    now destruct (existsb_eqb_In _ _ Hk).
Qed.

End MergeLoop.

Lemma baseMergeDeep_primitive (objValue srcValue : JsVal) :
  isObject srcValue = false -> baseMergeDeep objValue srcValue = srcValue.
Proof. destruct srcValue; simpl; congruence. Qed.

(** Merging a well-formed value over a destination value that is not an
    object gives that value: lodash's clone of the source. *)
Lemma baseMergeDeep_clone (srcValue : JsVal) :
  wf srcValue = true ->
  forall objValue, isObject objValue = false ->
  baseMergeDeep objValue srcValue = srcValue.
Proof.
  induction srcValue as [| | | | |k ps IH] using JsVal_props_ind;
    intros Hwf objValue Ho; try reflexivity.
  rewrite wf_JObj in Hwf. apply andb_true_iff in Hwf as [Hd Hps].
  assert (Hcopy : forall k0,
             JObj k0 (fold_left
                        (fun (object : props) (p : string * JsVal) =>
                           let (key, v) := p in
                           assignMergeValue object key
                             (baseMergeDeep (read_prop key object) v))
                        ps []) = JObj k0 ps).
  { intros k0. f_equal. rewrite (loop_copy baseMergeDeep ps [] Hd); [reflexivity|reflexivity|].
    rewrite Forall_forall in IH |- *. intros [key v] Hin.
    apply (IH (key, v) Hin); [|reflexivity].
    apply (wf_props_In key v ps Hps). now apply list_elem_of_In. }
  destruct k as [| | |h]; try reflexivity.
  - cbn [baseMergeDeep]. unfold mergeTarget.
    destruct objValue; try discriminate Ho; simpl; apply Hcopy.
  - cbn [baseMergeDeep]. unfold mergeTarget.
    destruct objValue; try discriminate Ho; simpl; apply Hcopy.
Qed.

(** ** Request configuration *)

Lemma mergeOptions_object (method : string) (k : kind) (ps : props) :
  mergeOptions method (JObj k ps)
  = JObj Plain
      (fold_left
         (fun (object : props) (p : string * JsVal) =>
            let (key, v) := p in
            assignMergeValue object key (mergeValue (read_prop key object) v))
         ps (base_config method)).
Proof. reflexivity. Qed.

Lemma mergeValue_clone (objValue srcValue : JsVal) :
  wf srcValue = true -> isObject objValue = false ->
  mergeValue objValue srcValue = srcValue.
Proof.
  intros Hwf Ho. unfold mergeValue.
  destruct (isObject srcValue); [now apply baseMergeDeep_clone|reflexivity].
Qed.

Lemma get_dispatches
  (transport : string -> JsVal -> trace -> Settled Response)
  (url : string) (options : JsVal) (t : trace) :
  dispatches (get transport url options) t url (mergeOptions "GET" options)
  /\ dispatches (post transport url options) t url (mergeOptions "POST" options)
  /\ dispatches (put transport url options) t url (mergeOptions "PUT" options)
  /\ dispatches (delete_ transport url options) t url (mergeOptions "DELETE" options).
Proof.
  unfold dispatches, get, post, put, delete_.
  rewrite !then_identity. repeat split; apply pipeline_requests.
Qed.

(** The headers of the configuration when the caller's [headers] is a
    plain mapping: the default headers with the caller's merged in. *)
Lemma mergeOptions_headers (method : string) (ps hs : props) :
  distinct (keys ps) = true ->
  get_prop "headers" ps = Some (JObj Plain hs) ->
  field "headers" (mergeOptions method (JObj Plain ps))
  = Some (JObj Plain
            (fold_left
               (fun (object : props) (p : string * JsVal) =>
                  let (key, v) := p in
                  assignMergeValue object key
                    (baseMergeDeep (read_prop key object) v))
               hs (own_props (read_prop "headers" (own_props defaultOptions))))).
Proof.
  intros Hd Hh. rewrite mergeOptions_object. unfold field.
  rewrite (loop_at mergeValue "headers" (JObj Plain hs) ps _ Hd (get_prop_In _ _ _ Hh)).
  reflexivity.
Qed.

Lemma default_header_primitive (name : string) :
  isObject (read_prop name (own_props (read_prop "headers" (own_props defaultOptions))))
  = false.
Proof.
  change (own_props (read_prop "headers" (own_props defaultOptions)))
    with [ ("Accept", JStr "application/json");
           ("Content-Type", JStr "application/json");
           ("X-Requested-With", JStr "XMLHttpRequest") ].
  unfold read_prop. cbn [get_prop].
  repeat match goal with
         | |- context [String.eqb ?a name] => destruct (String.eqb a name)
         end; reflexivity.
Qed.

(** C2, amended.  When the caller's options are omitted, or are a
    well-formed plain mapping without the keys [method] and [credentials]
    whose [headers] is absent or a plain mapping without the keys Accept,
    Content-Type and X-Requested-With, [get(url, options)] dispatches a
    request with method GET, headers Accept: application/json,
    Content-Type: application/json, X-Requested-With: XMLHttpRequest, and
    credentials same-origin. *)
Theorem get_default_request
  (transport : string -> JsVal -> trace -> Settled Response)
  (url : string) (options : JsVal) (t : trace) :
  wf options = true ->
  leaves_defaults options = true ->
  dispatches (get transport url options) t url (mergeOptions "GET" options)
  /\ field "method" (mergeOptions "GET" options) = Some (JStr "GET")
  /\ header "Accept" (mergeOptions "GET" options) = Some (JStr "application/json")
  /\ header "Content-Type" (mergeOptions "GET" options) = Some (JStr "application/json")
  /\ header "X-Requested-With" (mergeOptions "GET" options) = Some (JStr "XMLHttpRequest")
  /\ field "credentials" (mergeOptions "GET" options) = Some (JStr "same-origin").
Proof.
  intros Hwf Hl. split; [apply get_dispatches|].
  destruct options as [| | | | |[| | |] ps]; try discriminate Hl.
  { repeat split; reflexivity. }
  rewrite wf_JObj in Hwf. apply andb_true_iff in Hwf as [Hd _].
  simpl in Hl. apply andb_true_iff in Hl as [Hl Hh].
  apply andb_true_iff in Hl as [Hm Hc].
  apply negb_true_iff in Hm, Hc. rewrite has_prop_keys in Hm, Hc.
  split; [|split; [|split; [|split]]].
  - rewrite mergeOptions_object. unfold field. now rewrite loop_frame.
  - destruct (get_prop "headers" ps) as [[| | | | |[| | |] hs]|] eqn:E;
      try discriminate Hh.
    + unfold header. rewrite (mergeOptions_headers "GET" ps hs Hd E).
      apply andb_true_iff in Hh as [Hh _]. apply andb_true_iff in Hh as [Ha _].
      apply negb_true_iff in Ha. rewrite has_prop_keys in Ha.
      unfold field. now rewrite loop_frame.
    + unfold header. rewrite mergeOptions_object. unfold field.
      rewrite loop_frame; [reflexivity|].
      now rewrite <- has_prop_keys, has_prop_get, E.
  - destruct (get_prop "headers" ps) as [[| | | | |[| | |] hs]|] eqn:E;
      try discriminate Hh.
    + unfold header. rewrite (mergeOptions_headers "GET" ps hs Hd E).
      apply andb_true_iff in Hh as [Hh _]. apply andb_true_iff in Hh as [_ Ha].
      apply negb_true_iff in Ha. rewrite has_prop_keys in Ha.
      unfold field. now rewrite loop_frame.
    + unfold header. rewrite mergeOptions_object. unfold field.
      rewrite loop_frame; [reflexivity|].
      now rewrite <- has_prop_keys, has_prop_get, E.
  - destruct (get_prop "headers" ps) as [[| | | | |[| | |] hs]|] eqn:E;
      try discriminate Hh.
    + unfold header. rewrite (mergeOptions_headers "GET" ps hs Hd E).
      apply andb_true_iff in Hh as [_ Ha].
      apply negb_true_iff in Ha. rewrite has_prop_keys in Ha.
      unfold field. now rewrite loop_frame.
    + unfold header. rewrite mergeOptions_object. unfold field.
      rewrite loop_frame; [reflexivity|].
      now rewrite <- has_prop_keys, has_prop_get, E.
  - rewrite mergeOptions_object. unfold field. now rewrite loop_frame.
Qed.

Lemma get_default_request_witness :
  field "method" (mergeOptions "GET" (JObj Plain [("body", JStr "x")]))
  = Some (JStr "GET").
Proof.
  apply (get_default_request offline "/api/v2/EntityType"
           (JObj Plain [("body", JStr "x")]) []); reflexivity.
Defined.

(** C2 as stated fails: [{headers: {Accept: 'text/plain'}}] has no
    [method] key and no [headers.Content-Type] key, and [get] dispatches
    Accept: text/plain. *)
Lemma get_default_request_counterexample :
  field "method" accept_text_plain = None
  /\ header "Content-Type" accept_text_plain = None
  /\ dispatches (get offline "/api/v2/EntityType" accept_text_plain) []
       "/api/v2/EntityType" (mergeOptions "GET" accept_text_plain)
  /\ header "Accept" (mergeOptions "GET" accept_text_plain) = Some (JStr "text/plain")
  /\ header "Accept" (mergeOptions "GET" accept_text_plain)
     <> Some (JStr "application/json").
Proof. repeat split; [reflexivity..|discriminate]. Qed.

(** C4.  When the caller's [headers] is a plain mapping, the
    configuration's headers are the default headers merged with it key by
    key: a name the caller does not give keeps its default, a name the
    caller gives takes the caller's value (an [undefined] one is skipped
    where a default exists).  With [{headers: {Accept: 'text/plain'}}],
    Accept is text/plain, Content-Type is application/json and
    X-Requested-With is XMLHttpRequest. *)
Theorem mergeOptions_merges_headers :
  (forall method ps hs name,
      wf (JObj Plain ps) = true ->
      get_prop "headers" ps = Some (JObj Plain hs) ->
      header name (mergeOptions method (JObj Plain ps))
      = match get_prop name hs with
        | None => header name defaultOptions
        | Some v => assigned (header name defaultOptions) v
        end)
  /\ header "Accept" (mergeOptions "GET" accept_text_plain) = Some (JStr "text/plain")
  /\ header "Content-Type" (mergeOptions "GET" accept_text_plain)
     = Some (JStr "application/json")
  /\ header "X-Requested-With" (mergeOptions "GET" accept_text_plain)
     = Some (JStr "XMLHttpRequest").
Proof.
  split; [|repeat split; reflexivity].
  intros method ps hs name Hwf Hh.
  rewrite wf_JObj in Hwf. apply andb_true_iff in Hwf as [Hd Hps].
  pose proof (wf_props_In _ _ _ Hps (get_prop_In _ _ _ Hh)) as Hwh.
  rewrite wf_JObj in Hwh. apply andb_true_iff in Hwh as [Hdh Hhs].
  unfold header at 1. rewrite (mergeOptions_headers method ps hs Hd Hh).
  unfold field.
  destruct (get_prop name hs) as [v|] eqn:E.
  - rewrite (loop_at baseMergeDeep name v hs _ Hdh (get_prop_In _ _ _ E)).
    rewrite baseMergeDeep_clone;
      [reflexivity|exact (wf_props_In _ _ _ Hhs (get_prop_In _ _ _ E))|].
    apply default_header_primitive.
  - rewrite loop_frame; [reflexivity|].
    now rewrite <- has_prop_keys, has_prop_get, E.
Qed.

Lemma mergeOptions_merges_headers_witness :
  header "Content-Type"
    (mergeOptions "PUT"
       (JObj Plain [("headers", JObj Plain [("X-Trace", JStr "1")])]))
  = header "Content-Type" defaultOptions.
Proof.
  apply (proj1 mergeOptions_merges_headers "PUT"
           [("headers", JObj Plain [("X-Trace", JStr "1")])]
           [("X-Trace", JStr "1")] "Content-Type"); reflexivity.
Defined.

(** C9, amended.  When the caller's options are a well-formed mapping
    with a [method] key whose value [M] is not [undefined], the
    configuration's method is [M] whatever the method constant, so each of
    [get], [post], [put] and [delete_] dispatches a request with method
    [M]. *)
Theorem caller_method_overrides
  (transport : string -> JsVal -> trace -> Settled Response)
  (url : string) (ps : props) (M : JsVal) (t : trace) :
  wf (JObj Plain ps) = true ->
  get_prop "method" ps = Some M ->
  M <> JUndefined ->
  (forall METHOD, field "method" (mergeOptions METHOD (JObj Plain ps)) = Some M)
  /\ dispatches (get transport url (JObj Plain ps)) t url
       (mergeOptions "GET" (JObj Plain ps))
  /\ dispatches (post transport url (JObj Plain ps)) t url
       (mergeOptions "POST" (JObj Plain ps))
  /\ dispatches (put transport url (JObj Plain ps)) t url
       (mergeOptions "PUT" (JObj Plain ps))
  /\ dispatches (delete_ transport url (JObj Plain ps)) t url
       (mergeOptions "DELETE" (JObj Plain ps)).
Proof.
  intros Hwf Hm HM. split; [|apply get_dispatches].
  intros METHOD.
  rewrite wf_JObj in Hwf. apply andb_true_iff in Hwf as [Hd Hps].
  rewrite mergeOptions_object. unfold field.
  rewrite (loop_at mergeValue "method" M ps _ Hd (get_prop_In _ _ _ Hm)).
  change (read_prop "method" (base_config METHOD)) with (JStr METHOD).
  rewrite mergeValue_clone;
    [|exact (wf_props_In _ _ _ Hps (get_prop_In _ _ _ Hm))|reflexivity].
  destruct M; [contradiction|reflexivity..].
Qed.

Lemma caller_method_overrides_witness :
  field "method" (mergeOptions "GET" (JObj Plain [("method", JStr "PATCH")]))
  = Some (JStr "PATCH").
Proof.
  apply (proj1 (caller_method_overrides offline "/api/v2/EntityType"
                  [("method", JStr "PATCH")] (JStr "PATCH") []
                  eq_refl eq_refl ltac:(discriminate)) "GET").
Defined.

(** C9 as stated fails: [{method: undefined}] has a [method] key, and
    [get] dispatches method GET, not [undefined]. *)
Lemma caller_method_overrides_counterexample :
  field "method" method_undefined = Some JUndefined
  /\ dispatches (get offline "/api/v2/EntityType" method_undefined) []
       "/api/v2/EntityType" (mergeOptions "GET" method_undefined)
  /\ field "method" (mergeOptions "GET" method_undefined) = Some (JStr "GET")
  /\ field "method" (mergeOptions "GET" method_undefined) <> Some JUndefined.
Proof. repeat split; [reflexivity..|discriminate]. Qed.

(** ** The store: [defaultOptions] is never written *)

Module StoreFacts.
Import Store.

Implicit Types (h : heap) (l c d : loc) (k key : string) (v : val) (o : object).

Lemma read_lookup h h' l l' k :
  h' !! l' = h !! l -> read h' l' k = read h l k.
Proof. unfold read. now intros ->. Qed.

Lemma has_class_lookup h h' l l' cls :
  h' !! l' = h !! l -> has_class h' (VRef l') cls = has_class h (VRef l) cls.
Proof. unfold has_class, deref. now intros ->. Qed.

Lemma length_write h l k v : length (write h l k v) = length h.
Proof. unfold write. destruct (h !! l); [apply length_insert|reflexivity]. Qed.

Lemma lookup_write_ne h l l' k v : l <> l' -> write h l k v !! l' = h !! l'.
Proof.
  intros Hne. unfold write. destruct (h !! l); [|reflexivity].
  now apply list_lookup_insert_ne.
Qed.

Lemma read_write_eq h l k v :
  l < length h -> read (write h l k v) l k = v.
Proof.
  intros Hl. unfold write, read.
  destruct (h !! l) as [o|] eqn:E.
  - rewrite list_lookup_insert_eq by exact Hl. simpl. now rewrite get_prop_set_eq.
  - apply lookup_ge_None in E. lia.
Qed.

Lemma read_write_ne h l k k' v :
  k <> k' -> read (write h l k v) l k' = read h l k'.
Proof.
  intros Hne. unfold write, read.
  destruct (h !! l) as [o|] eqn:E; [|now rewrite E].
  assert (Hl : l < length h) by (apply lookup_lt_is_Some; eauto).
  rewrite list_lookup_insert_eq by exact Hl. simpl.
  now rewrite get_prop_set_ne.
Qed.

Lemma class_write h l k v cls :
  has_class (write h l k v) (VRef l) cls = has_class h (VRef l) cls.
Proof.
  unfold write, has_class, deref.
  destruct (h !! l) as [o|] eqn:E; [|now rewrite E].
  assert (Hl : l < length h) by (apply lookup_lt_is_Some; eauto).
  rewrite list_lookup_insert_eq by exact Hl. now destruct o.
Qed.

(** [assignMergeValue] writes at one key of one object, or not at all. *)
Lemma length_assign h c key v : length (assignMergeValue h c key v) = length h.
Proof.
  unfold assignMergeValue. destruct v; try apply length_write.
  destruct (h !! c) as [o|]; [|reflexivity].
  destruct (has_prop key (fields o)); [reflexivity|apply length_write].
Qed.

Lemma lookup_assign_ne h c l key v :
  c <> l -> assignMergeValue h c key v !! l = h !! l.
Proof.
  intros Hne. unfold assignMergeValue. destruct v; try (now apply lookup_write_ne).
  destruct (h !! c) as [o|]; [|reflexivity].
  destruct (has_prop key (fields o)); [reflexivity|now apply lookup_write_ne].
Qed.

Lemma read_assign_ne h c key k v :
  key <> k -> read (assignMergeValue h c key v) c k = read h c k.
Proof.
  intros Hne. unfold assignMergeValue. destruct v; try (now apply read_write_ne).
  destruct (h !! c) as [o|]; [|reflexivity].
  destruct (has_prop key (fields o)); [reflexivity|now apply read_write_ne].
Qed.

Lemma class_assign h c key v cls :
  has_class (assignMergeValue h c key v) (VRef c) cls = has_class h (VRef c) cls.
Proof.
  unfold assignMergeValue. destruct v; try apply class_write.
  destruct (h !! c) as [o|]; [|reflexivity].
  destruct (has_prop key (fields o)); [reflexivity|apply class_write].
Qed.

(** What [key] reads after the assignment: the value, or what it held when
    the value is [undefined]. *)
Lemma read_assign_eq h c key v :
  c < length h ->
  read (assignMergeValue h c key v) c key
  = match v with VUndefined => read h c key | _ => v end.
Proof.
  intros Hc. unfold assignMergeValue.
  destruct v; try (now apply read_write_eq).
  destruct (h !! c) as [o|] eqn:E.
  - destruct (has_prop key (fields o)) eqn:Hp; [reflexivity|].
    rewrite read_write_eq by exact Hc. unfold read. rewrite E.
    rewrite has_prop_get in Hp. now destruct (get_prop key (fields o)).
  - reflexivity.
Qed.

Lemma modifies_refl c ks h : modifies c ks h h.
Proof. repeat split; auto. Qed.

Lemma modifies_trans c ks1 ks2 h h1 h2 :
  modifies c ks1 h h1 -> modifies c ks2 h1 h2 -> modifies c (ks1 ++ ks2) h h2.
Proof.
  intros (L1 & F1 & R1) (L2 & F2 & R2). split; [lia|]. split.
  - intros l Hl Hne. rewrite F2 by (auto; lia). now apply F1.
  - intros k Hk. rewrite R2, R1; [reflexivity| |];
      intros Hin; apply Hk, in_or_app; auto.
Qed.

Lemma modifies_weaken c ks ks' h h' :
  (forall k, In k ks -> In k ks') -> modifies c ks h h' -> modifies c ks' h h'.
Proof.
  intros Hsub (L & F & R). repeat split; auto.
Qed.

Lemma modifies_assign h c key v : modifies c [key] h (assignMergeValue h c key v).
Proof.
  split; [now rewrite length_assign|]. split.
  - intros l _ Hne. apply lookup_assign_ne. congruence.
  - intros k Hk. apply read_assign_ne. intros ->. apply Hk. now left.
Qed.

(** Merging into an object allocated for the purpose leaves every other
    object as it was. *)
Lemma modifies_fresh c ks h h2 o :
  c < length h ->
  modifies (length h) ks (h ++ [o]) h2 -> modifies c [] h h2.
Proof.
  intros Hc (L & F & _). rewrite length_app in L, F. simpl in L, F.
  assert (G : forall l, l < length h -> h2 !! l = h !! l).
  { intros l Hl. rewrite F by lia. now apply lookup_app_l. }
  split; [lia|]. split.
  - intros l Hl _. now apply G.
  - intros k _. apply read_lookup. now apply G.
Qed.


Lemma read_fresh h o k : fields o = [] -> read (h ++ [o]) (length h) k = VUndefined.
Proof.
  intros E. unfold read. rewrite list_lookup_middle by reflexivity. now rewrite E.
Qed.

Lemma has_class_primitive h v cls : isObject v = false -> has_class h v cls = false.
Proof. destruct v; simpl; try reflexivity. discriminate. Qed.

Lemma isArrayLikeObject_primitive h v :
  isObject v = false -> isArrayLikeObject h v = false.
Proof. destruct v; simpl; try reflexivity. discriminate. Qed.

(** ** Merging into a destination without object properties *)

Section FreshTarget.

Variable mergeFunc : heap -> loc -> loc -> stack -> heap.

Hypothesis mergeFunc_fresh : forall h t s st,
  t < length h ->
  (forall k, In k (keysIn h s) -> isObject (read h t k) = false) ->
  modifies t (keysIn h s) h (mergeFunc h t s st).

Lemma merge_into_new h c o src st key :
  c < length h -> fields o = [] ->
  modifies c [key] h
    (assignMergeValue (mergeFunc (h ++ [o]) (length h) src st) c key (VRef (length h))).
Proof.
  intros Hc Ho.
  assert (M : modifies c [] h (mergeFunc (h ++ [o]) (length h) src st)).
  { eapply modifies_fresh; [exact Hc|]. apply mergeFunc_fresh.
    - rewrite length_app. simpl. lia.
    - intros k _. now rewrite read_fresh. }
  exact (modifies_trans c [] [key] _ _ _ M (modifies_assign _ c key _)).
Qed.

Lemma baseMergeDeep_fresh h c s key st :
  c < length h ->
  isObject (read h c key) = false ->
  modifies c [key] h (baseMergeDeep mergeFunc h c s key st).
Proof.
  intros Hc Hobj. unfold baseMergeDeep.
  destruct (read h s key) as [| | | | |src]; try apply modifies_assign.
  destruct (stack_get st src); [apply modifies_assign|].
  unfold isArray at 2.
  rewrite (has_class_primitive h _ Array Hobj), (isArrayLikeObject_primitive h _ Hobj), Hobj.
  destruct (isArray h (VRef src)).
  - now apply merge_into_new.
  - destruct (isPlainObject h (VRef src)); [|apply modifies_assign].
    now apply merge_into_new.
Qed.

Lemma loop_fresh c s st (ks : list string) : forall h,
  NoDup ks ->
  c < length h ->
  (forall k, In k ks -> isObject (read h c k) = false) ->
  modifies c ks h
    (fold_left
       (fun h key =>
          let srcValue := read h s key in
          if isObject srcValue
          then baseMergeDeep mergeFunc h c s key st
          else assignMergeValue h c key srcValue)
       ks h).
Proof.
  induction ks as [|key ks IH]; intros h Hnd Hc Hobj; [apply modifies_refl|].
  apply NoDup_cons in Hnd as [Hkey Hnd]. cbn [fold_left].
  set (h1 := if isObject (read h s key) then _ else _).
  assert (M : modifies c [key] h h1).
  { subst h1. destruct (isObject (read h s key)).
    - apply baseMergeDeep_fresh; [exact Hc|]. apply Hobj. now left.
    - apply modifies_assign. }
  change (key :: ks) with ([key] ++ ks).
  apply (modifies_trans c [key] ks h h1); [exact M|].
  destruct M as (L & _ & R).
  apply IH; [exact Hnd|lia|].
  intros k Hk. rewrite R; [apply Hobj; now right|].
  intros [->|[]]. apply Hkey. now apply list_elem_of_In.
Qed.

End FreshTarget.

Lemma NoDup_keysIn h s : NoDup (keysIn h s).
Proof.
  unfold keysIn. destruct (h !! s); [apply NoDup_remove_dups|constructor].
Qed.

(** [baseMerge] into an object whose properties at the source's keys are
    primitives writes that object and objects it allocates, nothing else. *)
Lemma baseMerge_fresh fuel : forall h c s st,
  c < length h ->
  (forall k, In k (keysIn h s) -> isObject (read h c k) = false) ->
  modifies c (keysIn h s) h (baseMerge fuel h c s st).
Proof.
  induction fuel as [|fuel IH]; intros h c s st Hc Hobj; [apply modifies_refl|].
  cbn [baseMerge]. destruct (Nat.eqb c s); [apply modifies_refl|].
  apply (loop_fresh (baseMerge fuel) IH); [apply NoDup_keysIn|exact Hc|exact Hobj].
Qed.


(** ** Merging a source of strings *)

Lemma is_text_primitive v : is_text v = true -> isObject v = false.
Proof. now destruct v. Qed.

Lemma text_loop (mergeFunc : heap -> loc -> loc -> stack -> heap) h t s st
  (ks : list string) : forall h1,
  t < length h -> t <> s ->
  (forall k, is_text (read h s k) = true) ->
  text_step t h h1 ->
  text_step t h
    (fold_left
       (fun h key =>
          let srcValue := read h s key in
          if isObject srcValue
          then baseMergeDeep mergeFunc h t s key st
          else assignMergeValue h t key srcValue)
       ks h1).
Proof.
  intros h1 Ht Hts Hsrc. revert h1.
  induction ks as [|key ks IH]; intros h1 Inv; [exact Inv|].
  destruct Inv as (L & F & T & C). cbn [fold_left]. apply IH.
  assert (Es : read h1 s key = read h s key).
  { apply read_lookup, F. congruence. }
  cbv zeta. rewrite Es, (is_text_primitive _ (Hsrc key)).
  split; [now rewrite length_assign|]. split; [|split].
  - intros l Hl. rewrite lookup_assign_ne by congruence. now apply F.
  - intros k. destruct (String.eqb_spec key k) as [<-|Hk].
    + rewrite read_assign_eq by lia.
      specialize (Hsrc key). destruct (read h s key); try exact Hsrc; apply T.
    + rewrite read_assign_ne by exact Hk. apply T.
  - intros cls. rewrite class_assign. apply C.
Qed.

Lemma baseMerge_text fuel h t s st :
  t < length h ->
  (forall k, is_text (read h s k) = true) ->
  (forall k, is_text (read h t k) = true) ->
  text_step t h (baseMerge fuel h t s st).
Proof.
  intros Ht Hsrc Htgt.
  assert (R : text_step t h h) by (repeat split; auto).
  destruct fuel as [|fuel]; [exact R|]. cbn [baseMerge].
  destruct (Nat.eqb_spec t s) as [_|Hts]; [exact R|].
  now apply text_loop.
Qed.


(** ** The configuration after the defaults *)

Lemma read_new h o k :
  read (h ++ [o]) (length h) k
  = match get_prop k (fields o) with Some v => v | None => VUndefined end.
Proof. unfold read. now rewrite list_lookup_middle by reflexivity. Qed.

Lemma read_old h o l k : l < length h -> read (h ++ [o]) l k = read h l k.
Proof. intros Hl. apply read_lookup. now apply lookup_app_l. Qed.

Section Defaults.

Variable defaultOptions : loc.
Variables (h : heap) (method : string).
Hypothesis Hinstalled : installed defaultOptions h.

Local Abbreviation d := (length h).
Local Abbreviation h1 := (h ++ [{| class := Plain; fields := [("method", VStr method)] |}]).

Lemma installed_bound : defaultOptions < length h.
Proof.
  destruct Hinstalled as (hl & HD & _). apply lookup_lt_is_Some. eauto.
Qed.

Lemma new_config_text k : is_text (read h1 d k) = true.
Proof.
  rewrite read_new. cbn [fields get_prop].
  now destruct (String.eqb "method" k).
Qed.

Lemma defaults_frame fuel :
  modifies d (keysIn h1 defaultOptions) h1
    (merge_source fuel h1 d (VRef defaultOptions)).
Proof.
  cbn [merge_source truthy]. apply baseMerge_fresh.
  - rewrite length_app. simpl. lia.
  - intros k _. apply is_text_primitive, new_config_text.
Qed.

Lemma defaults_shape fuel :
  config_shape d (merge_source fuel h1 d (VRef defaultOptions)).
Proof.
  pose proof installed_bound as HDlt.
  destruct Hinstalled as (hl & HD & Hhl).
  assert (Hhllt : hl < length h) by (apply lookup_lt_is_Some; eauto).
  assert (Len1 : length h1 = S d) by (rewrite length_app; simpl; lia).
  assert (Base : config_shape d h1).
  { split; [lia|]. split.
    - intros k _. apply is_text_primitive, new_config_text.
    - left. apply is_text_primitive, new_config_text. }
  cbn [merge_source truthy].
  destruct fuel as [|fuel]; [exact Base|]. cbn [baseMerge].
  destruct (Nat.eqb_spec d defaultOptions) as [E|_]; [lia|].
  assert (K : keysIn h1 defaultOptions = ["headers"; "credentials"]).
  { unfold keysIn. rewrite lookup_app_l by exact HDlt. rewrite HD. reflexivity. }
  rewrite K. cbn [fold_left].
  assert (S1 : read h1 defaultOptions "headers" = VRef hl).
  { rewrite read_old by exact HDlt. unfold read. rewrite HD. reflexivity. }
  rewrite S1. cbn [isObject]. cbv zeta.
  set (hB := baseMergeDeep _ _ _ _ _ _).
  assert (B : length h1 < length hB
              /\ (forall l, l < d -> hB !! l = h !! l)
              /\ (forall k, k <> "headers" -> read hB d k = read h1 d k)
              /\ read hB d "headers" = VRef (S d)
              /\ text_object hB (S d)).
  { subst hB. unfold baseMergeDeep. rewrite S1.
    assert (O1 : read h1 d "headers" = VUndefined) by (rewrite read_new; reflexivity).
    rewrite O1. cbn [stack_get isObject andb].
    assert (C1 : isArray h1 (VRef hl) = false).
    { unfold isArray. rewrite (has_class_lookup h h1 hl hl) by (now apply lookup_app_l).
      unfold has_class, deref. now rewrite Hhl. }
    assert (C2 : isPlainObject h1 (VRef hl) = true).
    { unfold isPlainObject. rewrite (has_class_lookup h h1 hl hl) by (now apply lookup_app_l).
      unfold has_class, deref. now rewrite Hhl. }
    rewrite C1, C2. cbn [alloc]. rewrite Len1.
    set (e := {| class := Plain; fields := [] |}).
    set (st := [(hl, VRef (S d))]).
    assert (T : text_step (S d) (h1 ++ [e]) (baseMerge fuel (h1 ++ [e]) (S d) hl st)).
    { apply baseMerge_text.
      - rewrite length_app. simpl. lia.
      - intros k. rewrite !read_old by (rewrite ?length_app; simpl; lia).
        unfold read. rewrite Hhl. cbn [default_headers fields get_prop].
        repeat match goal with
               | |- context [String.eqb ?a k] => destruct (String.eqb a k)
               end; reflexivity.
      - intros k. rewrite <- Len1. now rewrite read_new. }
    set (hA := baseMerge fuel (h1 ++ [e]) (S d) hl st) in *.
    destruct T as (LA & FA & TA & CA).
    rewrite length_app in LA. simpl in LA.
    assert (Hd : hA !! d = h1 !! d).
    { rewrite FA by lia. apply lookup_app_l. lia. }
    split; [rewrite length_assign; lia|]. split; [|split; [|split]].
    - intros l Hl. rewrite lookup_assign_ne by lia. rewrite FA by lia.
      rewrite !lookup_app_l by (rewrite ?length_app; simpl; lia). reflexivity.
    - intros k Hk. rewrite read_assign_ne by congruence. now apply read_lookup.
    - rewrite read_assign_eq by lia. reflexivity.
    - split; [rewrite length_assign; lia|]. split.
      + rewrite (has_class_lookup hA _ (S d) (S d)) by (apply lookup_assign_ne; lia).
        rewrite CA. rewrite <- Len1. unfold has_class, deref.
        now rewrite list_lookup_middle by reflexivity.
      + intros k. rewrite (read_lookup hA _ (S d) (S d)) by (apply lookup_assign_ne; lia).
        apply TA. }
  destruct B as (LB & FB & RB & HB & TB).
  assert (S2 : read hB defaultOptions "credentials" = VStr "same-origin").
  { rewrite (read_lookup h hB defaultOptions defaultOptions) by (now apply FB).
    unfold read. rewrite HD. reflexivity. }
  rewrite S2. cbn [isObject].
  split; [rewrite length_assign; lia|]. split.
  - intros k Hk. destruct (String.eqb_spec "credentials" k) as [<-|Hc].
    + rewrite read_assign_eq by lia. reflexivity.
    + rewrite read_assign_ne by exact Hc. rewrite RB by exact Hk.
      apply is_text_primitive, new_config_text.
  - right. split.
    + rewrite read_assign_ne by discriminate. exact HB.
    + destruct TB as (TL & TC & TT). split; [rewrite length_assign; lia|]. split.
      * rewrite (has_class_lookup hB _ (S d) (S d)) by (apply lookup_assign_ne; lia).
        exact TC.
      * intros k. rewrite (read_lookup hB _ (S d) (S d)) by (apply lookup_assign_ne; lia).
        apply TT.
Qed.

End Defaults.


(** ** Merging the caller's options into the configuration *)

Lemma has_class_Plain h v :
  has_class h v Plain = true ->
  has_class h v Array = false /\ has_class h v Function = false.
Proof.
  unfold has_class. destruct (deref h v) as [[[| | |?] ?]|]; intros H;
    first [discriminate H | split; reflexivity].
Qed.

Lemma is_text_length v : is_text v = true -> isLength v = false.
Proof. now destruct v. Qed.

Lemma modifies_config_step d key h h' :
  d < length h -> modifies d [key] h h' -> config_step d key h h'.
Proof.
  intros Hd (L & F & R). split; [exact L|]. split; [|split].
  - intros l Hl Hne _. now apply F.
  - intros k Hk. apply R. intros [->|[]]. now apply Hk.
  - intros _ Hs. apply F; [exact Hs|lia].
Qed.

Lemma baseMergeDeep_config fuel h d s key st :
  d < length h ->
  config_value d h key ->
  config_step d key h (baseMergeDeep (baseMerge fuel) h d s key st).
Proof.
  intros Hd [Hprim|(-> & Hobj & Hlt & Hcls & Htext)].
  { apply modifies_config_step; [exact Hd|].
    apply baseMergeDeep_fresh; [apply baseMerge_fresh|exact Hd|exact Hprim]. }
  destruct (has_class_Plain _ _ Hcls) as (Harr & Hfun).
  unfold baseMergeDeep. rewrite Hobj.
  destruct (read h s "headers") as [| | | | |src];
    try (apply modifies_config_step; [exact Hd|apply modifies_assign]).
  destruct (stack_get st src);
    [apply modifies_config_step; [exact Hd|apply modifies_assign]|].
  unfold isArray at 2. rewrite Harr.
  unfold isArrayLikeObject, isFunction. rewrite Hfun, (is_text_length _ (Htext "length")).
  cbn [negb andb isObject].
  destruct (isArray h (VRef src)).
  { apply modifies_config_step; [exact Hd|].
    apply merge_into_new; [apply baseMerge_fresh|exact Hd|reflexivity]. }
  destruct (isPlainObject h (VRef src));
    [|apply modifies_config_step; [exact Hd|apply modifies_assign]].
  set (st' := (src, VRef (S d)) :: st).
  assert (M : modifies (S d) (keysIn h src) h (baseMerge fuel h (S d) src st')).
  { apply baseMerge_fresh; [exact Hlt|].
    intros k _. apply is_text_primitive, Htext. }
  destruct M as (L & F & _).
  split; [rewrite length_assign; exact L|]. split; [|split].
  - intros l Hl Hne Hne'. rewrite lookup_assign_ne by congruence. now apply F.
  - intros k Hk. rewrite read_assign_ne by congruence.
    apply read_lookup, F; [exact Hd|lia].
  - intros Hk. now destruct Hk.
Qed.

Lemma config_value_step d key k h h' :
  d < length h -> k <> key ->
  config_step d key h h' -> config_value d h k -> config_value d h' k.
Proof.
  intros Hd Hk (L & F & R & Hs) [Hprim|(-> & Hobj & Hlt & Hcls & Htext)].
  - left. now rewrite R.
  - right. split; [reflexivity|]. rewrite R by exact Hk. split; [exact Hobj|].
    assert (E : h' !! S d = h !! S d) by (apply Hs; [congruence|exact Hlt]).
    split; [lia|]. split.
    + now rewrite (has_class_lookup h h' (S d) (S d)).
    + intros k'. now rewrite (read_lookup h h' (S d) (S d)).
Qed.

Lemma below_trans d h h1 h2 : below d h h1 -> below d h1 h2 -> below d h h2.
Proof.
  intros (L1 & F1) (L2 & F2). split; [lia|].
  intros l Hl. now rewrite F2, F1.
Qed.

Lemma config_loop fuel d s st (ks : list string) : forall h,
  NoDup ks ->
  d < length h ->
  (forall k, In k ks -> config_value d h k) ->
  below d h
    (fold_left
       (fun h key =>
          let srcValue := read h s key in
          if isObject srcValue
          then baseMergeDeep (baseMerge fuel) h d s key st
          else assignMergeValue h d key srcValue)
       ks h).
Proof.
  induction ks as [|key ks IH]; intros h Hnd Hd Hv; [split; auto|].
  apply NoDup_cons in Hnd as [Hkey Hnd]. cbn [fold_left].
  set (h1 := if isObject (read h s key) then _ else _).
  assert (M : config_step d key h h1).
  { subst h1. destruct (isObject (read h s key)).
    - apply baseMergeDeep_config; [exact Hd|]. apply Hv. now left.
    - apply modifies_config_step; [exact Hd|apply modifies_assign]. }
  apply (below_trans d h h1).
  - destruct M as (L & F & _). split; [exact L|]. intros l Hl. apply F; lia.
  - apply IH; [exact Hnd|destruct M; lia|].
    intros k Hk. apply (config_value_step d key k h h1); [exact Hd| |exact M|].
    + intros ->. apply Hkey. now apply list_elem_of_In.
    + apply Hv. now right.
Qed.

Lemma assign_fold_below d (fs : list (string * val)) : forall h,
  d < length h ->
  below d h (fold_left (fun h p => assignMergeValue h d (fst p) (snd p)) fs h).
Proof.
  induction fs as [|p fs IH]; intros h Hd; [split; auto|].
  cbn [fold_left]. apply (below_trans d h (assignMergeValue h d (fst p) (snd p))).
  - split; [now rewrite length_assign|]. intros l Hl. apply lookup_assign_ne. lia.
  - apply IH. now rewrite length_assign.
Qed.

Lemma merge_source_config fuel d h options :
  config_shape d h -> below d h (merge_source fuel h d options).
Proof.
  intros (Hd & Hk & Hh).
  assert (R : below d h h) by (split; auto).
  unfold merge_source. destruct (truthy options); [|exact R].
  destruct options as [| | | |s|src]; try exact R.
  - now apply assign_fold_below.
  - destruct fuel as [|fuel]; [exact R|]. cbn [baseMerge].
    destruct (Nat.eqb d src); [exact R|].
    apply config_loop; [apply NoDup_keysIn|exact Hd|].
    intros k _. destruct (String.eqb_spec k "headers") as [->|Hne].
    + destruct Hh as [Hp|(Hobj & Ht)]; [now left|now right].
    + left. now apply Hk.
Qed.


(** ** What the configuration refers to *)

Section Sharing.

Variable h0 : heap.
Local Abbreviation n0 := (length h0).

Lemma shared_ok_primitive v : isObject v = false -> shared_ok h0 v.
Proof. intros H l ->. discriminate H. Qed.

Lemma shared_ok_new l : n0 <= l -> shared_ok h0 (VRef l).
Proof. intros H l' [= <-] Hl. lia. Qed.

Lemma shared_ok_config d h key :
  n0 <= d -> config_value d h key -> shared_ok h0 (read h d key).
Proof.
  intros Hd [Hp|(_ & -> & _)]; [now apply shared_ok_primitive|].
  apply shared_ok_new. lia.
Qed.

Lemma shared_ok_assign h d key v :
  d < length h ->
  shared_ok h0 v -> shared_ok h0 (read h d key) ->
  shared_ok h0 (read (assignMergeValue h d key v) d key).
Proof.
  intros Hd Hv Hold. rewrite read_assign_eq by exact Hd. now destruct v.
Qed.

Lemma baseMerge_grows fuel h o src st :
  fields o = [] ->
  length h < length (baseMerge fuel (h ++ [o]) (length h) src st).
Proof.
  intros Ho.
  assert (M : modifies (length h) (keysIn (h ++ [o]) src) (h ++ [o])
                (baseMerge fuel (h ++ [o]) (length h) src st)).
  { apply baseMerge_fresh; [rewrite length_app; simpl; lia|].
    intros k _. now rewrite read_fresh. }
  destruct M as (L & _). rewrite length_app in L. simpl in L. lia.
Qed.

Lemma baseMergeDeep_shared fuel h d s key :
  below n0 h0 h -> n0 <= d -> d < length h ->
  config_value d h key ->
  shared_ok h0 (read (baseMergeDeep (baseMerge fuel) h d s key []) d key).
Proof.
  intros Hb Hn Hd Hv.
  pose proof (shared_ok_config d h key Hn Hv) as Hold.
  assert (Hlen : n0 <= length h) by (destruct Hb; lia).
  assert (New : forall o src st, fields o = [] ->
            shared_ok h0
              (read (assignMergeValue
                       (baseMerge fuel (h ++ [o]) (length h) src st)
                       d key (VRef (length h))) d key)).
  { intros o src st Ho. pose proof (baseMerge_grows fuel h o src st Ho).
    rewrite read_assign_eq by lia. now apply shared_ok_new. }
  unfold baseMergeDeep.
  destruct (read h s key) as [| | | | |src] eqn:Esrc;
    try (apply shared_ok_assign; [exact Hd|now apply shared_ok_primitive|exact Hold]).
  cbn [stack_get].
  assert (Ref : isArray h (VRef src) = false -> isPlainObject h (VRef src) = false ->
                shared_ok h0 (read (assignMergeValue h d key (VRef src)) d key)).
  { intros Ha Hp. rewrite read_assign_eq by exact Hd.
    intros l [= <-] Hl. destruct Hb as (_ & F).
    unfold isArray in Ha. unfold isPlainObject in Hp.
    rewrite (has_class_lookup h0 h src src) in Ha, Hp by (now apply F).
    now split. }
  destruct Hv as [Hprim|(-> & Hobj & Hlt & Hcls & Htext)].
  - unfold isArray at 2.
    rewrite (has_class_primitive h _ Array Hprim),
      (isArrayLikeObject_primitive h _ Hprim), Hprim.
    cbn [andb alloc].
    destruct (isArray h (VRef src)) eqn:Ea; [now apply New|].
    destruct (isPlainObject h (VRef src)) eqn:Ep; [now apply New|now apply Ref].
  - destruct (has_class_Plain _ _ Hcls) as (Harr & Hfun).
    rewrite Hobj. unfold isArray at 2. rewrite Harr.
    unfold isArrayLikeObject, isFunction.
    rewrite Hfun, (is_text_length _ (Htext "length")).
    cbn [negb andb isObject alloc].
    destruct (isArray h (VRef src)) eqn:Ea; [now apply New|].
    destruct (isPlainObject h (VRef src)) eqn:Ep; [|now apply Ref].
    assert (M : modifies (S d) (keysIn h src) h
                  (baseMerge fuel h (S d) src [(src, VRef (S d))])).
    { apply baseMerge_fresh; [exact Hlt|].
      intros k _. apply is_text_primitive, Htext. }
    destruct M as (L & _).
    rewrite read_assign_eq by lia. apply shared_ok_new. lia.
Qed.

Lemma config_loop_shared fuel d s (ks : list string) : forall h,
  NoDup ks -> below n0 h0 h -> n0 <= d -> d < length h ->
  (forall k, In k ks -> config_value d h k) ->
  (forall k, shared_ok h0 (read h d k)) ->
  forall k,
    shared_ok h0
      (read
         (fold_left
            (fun h key =>
               let srcValue := read h s key in
               if isObject srcValue
               then baseMergeDeep (baseMerge fuel) h d s key []
               else assignMergeValue h d key srcValue)
            ks h) d k).
Proof.
  induction ks as [|key ks IH]; intros h Hnd Hb Hn Hd Hv Hok; [exact Hok|].
  apply NoDup_cons in Hnd as [Hkey Hnd]. cbn [fold_left].
  set (h1 := if isObject (read h s key) then _ else _).
  assert (M : config_step d key h h1).
  { subst h1. destruct (isObject (read h s key)).
    - apply baseMergeDeep_config; [exact Hd|]. apply Hv. now left.
    - apply modifies_config_step; [exact Hd|apply modifies_assign]. }
  assert (Hkeyok : shared_ok h0 (read h1 d key)).
  { subst h1. destruct (isObject (read h s key)) eqn:E.
    - apply baseMergeDeep_shared; auto. apply Hv. now left.
    - apply shared_ok_assign; [exact Hd| |apply Hok].
      now apply shared_ok_primitive. }
  apply IH; auto.
  - destruct Hb as (L & F), M as (L' & F' & _). split; [lia|].
    intros l Hl. rewrite F' by lia. now apply F.
  - destruct M; lia.
  - intros k Hk. apply (config_value_step d key k h h1); [exact Hd| |exact M|].
    + intros ->. apply Hkey. now apply list_elem_of_In.
    + apply Hv. now right.
  - intros k. destruct (String.eqb_spec k key) as [->|Hne]; [exact Hkeyok|].
    destruct M as (_ & _ & R & _). rewrite R by exact Hne. apply Hok.
Qed.

Lemma assign_fold_shared d (fs : list (string * val)) : forall h,
  d < length h ->
  Forall (fun p => isObject (snd p) = false) fs ->
  (forall k, shared_ok h0 (read h d k)) ->
  forall k,
    shared_ok h0
      (read (fold_left (fun h p => assignMergeValue h d (fst p) (snd p)) fs h) d k).
Proof.
  induction fs as [|p fs IH]; intros h Hd Hfs Hok; [exact Hok|].
  inversion Hfs as [|? ? Hp Hfs']; subst. cbn [fold_left].
  apply IH; [now rewrite length_assign|exact Hfs'|].
  intros k. destruct (String.eqb_spec (fst p) k) as [<-|Hne].
  - apply shared_ok_assign; [exact Hd|now apply shared_ok_primitive|apply Hok].
  - rewrite read_assign_ne by exact Hne. apply Hok.
Qed.

Lemma string_fields_primitive s : forall i,
  Forall (fun p => isObject (snd p) = false) (string_fields i s).
Proof. induction s as [|c s IH]; intros i; constructor; [reflexivity|apply IH]. Qed.

Lemma merge_source_shared fuel d h options :
  below n0 h0 h -> n0 <= d ->
  config_shape d h ->
  forall k, shared_ok h0 (read (merge_source fuel h d options) d k).
Proof.
  intros Hb Hn (Hd & Hk & Hh).
  assert (V : forall k, config_value d h k).
  { intros k. destruct (String.eqb_spec k "headers") as [->|Hne].
    - destruct Hh as [Hp|(Hobj & Ht)]; [now left|now right].
    - left. now apply Hk. }
  assert (R : forall k, shared_ok h0 (read h d k)).
  { intros k. now apply shared_ok_config. }
  unfold merge_source. destruct (truthy options); [|exact R].
  destruct options as [| | | |s|src]; try exact R.
  - apply assign_fold_shared; [exact Hd|apply string_fields_primitive|exact R].
  - destruct fuel as [|fuel]; [exact R|]. cbn [baseMerge].
    destruct (Nat.eqb d src); [exact R|].
    apply config_loop_shared; auto. apply NoDup_keysIn.
Qed.

End Sharing.

(** The configuration holds no reference to a plain object or an array of
    the store it was built in: what it took from [defaultOptions] and from
    the caller's plain objects and arrays are copies. *)
Lemma mergeOptions_shares defaultOptions fuel method options (h : heap) :
  installed defaultOptions h ->
  forall key,
    shared_ok h
      (read (fst (mergeOptions defaultOptions fuel method options h)) (length h) key).
Proof.
  intros Hi key. unfold mergeOptions. cbn [alloc fst merge fold_left].
  set (h1 := h ++ [{| class := Plain; fields := [("method", VStr method)] |}]).
  apply merge_source_shared; [|lia|apply (defaults_shape defaultOptions h method Hi)].
  assert (B1 : below (length h) h h1).
  { split; [subst h1; rewrite length_app; simpl; lia|].
    intros l Hl. now apply lookup_app_l. }
  apply (below_trans _ _ h1); [exact B1|].
  destruct (defaults_frame defaultOptions h method fuel) as (L & F & _).
  split; [exact L|]. intros l Hl. apply F; [|lia].
  rewrite length_app. simpl. lia.
Qed.

(** ** The operations on the store *)

Lemma below_prefix (h h' : heap) : below (length h) h h' -> h `prefix_of` h'.
Proof.
  intros (L & F). exists (drop (length h) h').
  rewrite <- (take_drop (length h) h') at 1. f_equal.
  apply list_eq. intros i. destruct (decide (i < length h)) as [Hi|Hi].
  - rewrite lookup_take_lt by exact Hi. now apply F.
  - rewrite lookup_take_ge by lia. symmetry. apply lookup_ge_None. lia.
Qed.

Lemma installed_prefix D (h h' : heap) :
  h `prefix_of` h' -> installed D h -> installed D h'.
Proof.
  intros Hp (hl & HD & Hhl). exists hl.
  split; eapply prefix_lookup_Some; eauto.
Qed.

Section Calls.

Variable defaultOptions : loc.

Lemma mergeOptions_fresh fuel method options (h : heap) :
  installed defaultOptions h ->
  snd (mergeOptions defaultOptions fuel method options h) = VRef (length h)
  /\ h `prefix_of` fst (mergeOptions defaultOptions fuel method options h)
  /\ length h < length (fst (mergeOptions defaultOptions fuel method options h)).
Proof.
  intros Hi. unfold mergeOptions. cbn [alloc fst snd merge fold_left].
  split; [reflexivity|].
  set (h1 := h ++ [{| class := Plain; fields := [("method", VStr method)] |}]).
  set (h2 := merge_source fuel h1 (length h) (VRef defaultOptions)).
  set (h3 := merge_source fuel h2 (length h) options).
  assert (B1 : below (length h) h h1).
  { split; [subst h1; rewrite length_app; simpl; lia|].
    intros l Hl. now apply lookup_app_l. }
  assert (B2 : below (length h) h1 h2).
  { destruct (defaults_frame defaultOptions h method fuel) as (L & F & _).
    split; [exact L|]. intros l Hl. apply F; [|lia].
    subst h1. rewrite length_app. simpl. lia. }
  assert (B3 : below (length h) h2 h3).
  { apply merge_source_config. apply (defaults_shape defaultOptions h method Hi). }
  pose proof (below_trans _ _ _ _ B1 (below_trans _ _ _ _ B2 B3)) as B.
  split; [now apply below_prefix|].
  destruct B2 as (L2 & _), B3 as (L3 & _).
  assert (length h1 = S (length h)) by (subst h1; rewrite length_app; simpl; lia).
  lia.
Qed.

Lemma request_prefix fuel method (url : string) options (h : heap) :
  installed defaultOptions h ->
  h `prefix_of`
    fst (let (h1, config) := mergeOptions defaultOptions fuel method options h in
         (h1, (url, config))).
Proof.
  intros Hi. destruct (mergeOptions_fresh fuel method options h Hi) as (_ & P & _).
  now destruct (mergeOptions defaultOptions fuel method options h).
Qed.

Lemma exec_prefix (c : call) (h : heap) :
  installed defaultOptions h -> h `prefix_of` fst (exec defaultOptions c h).
Proof.
  intros Hi.
  destruct c as [fuel url options|fuel url options|fuel url options
                |fuel url options|url file]; cbn [exec];
    try (now apply request_prefix).
  unfold postFile. cbn [alloc fst]. rewrite <- app_assoc. now apply prefix_app_r.
Qed.

Lemma do_step_prefix (s : step) (h : heap) :
  installed defaultOptions h -> h `prefix_of` do_step defaultOptions s h.
Proof.
  intros Hi. destruct s as [c|o]; cbn [do_step].
  - now apply exec_prefix.
  - cbn [alloc fst]. now apply prefix_app_r.
Qed.

Lemma run_prefix (steps : list step) : forall h,
  installed defaultOptions h ->
  Forall (fun h' => h `prefix_of` h' /\ installed defaultOptions h')
         (run defaultOptions steps h).
Proof.
  induction steps as [|s steps IH]; intros h Hi; [constructor|].
  cbn [run].
  pose proof (do_step_prefix s h Hi) as P.
  pose proof (installed_prefix _ _ _ P Hi) as Hi'.
  constructor; [now split|].
  eapply Forall_impl; [apply IH, Hi'|].
  intros h' (P' & Hi''). split; [|exact Hi'']. now transitivity (do_step defaultOptions s h).
Qed.

(** C8.  From a store in which [defaultOptions] and its headers hold
    their initial values: after every step of every run of calls to [get],
    [post], [put], [delete_] and [postFile] with any arguments (and of the
    caller building objects), every object of the earlier store is as it
    was, so [defaultOptions] and its headers hold the same values; each
    single call leaves the store it starts from as a prefix of the store
    it ends with; and [mergeOptions] returns a reference to a location
    that did not exist before the call, writing the old store nowhere,
    and no property of the configuration refers to [defaultOptions] or to
    its headers (nor to any plain object or array of the old store). *)
Theorem defaultOptions_never_mutated (h : heap) :
  installed defaultOptions h ->
  (forall steps,
      Forall (fun h' => h `prefix_of` h' /\ installed defaultOptions h')
             (run defaultOptions steps h))
  /\ (forall a : call,
        h `prefix_of` fst (exec defaultOptions a h)
        /\ installed defaultOptions (fst (exec defaultOptions a h)))
  /\ (forall fuel method options,
        snd (mergeOptions defaultOptions fuel method options h) = VRef (length h)
        /\ h `prefix_of` fst (mergeOptions defaultOptions fuel method options h)
        /\ length h < length (fst (mergeOptions defaultOptions fuel method options h))
        /\ forall key,
             shared_ok h
               (read (fst (mergeOptions defaultOptions fuel method options h))
                     (length h) key)
             /\ read (fst (mergeOptions defaultOptions fuel method options h))
                     (length h) key <> VRef defaultOptions
             /\ read (fst (mergeOptions defaultOptions fuel method options h))
                     (length h) key <> read h defaultOptions "headers").
Proof.
  intros Hi. split; [|split].
  - intros steps. now apply run_prefix.
  - intros a. pose proof (exec_prefix a h Hi) as P.
    split; [exact P|exact (installed_prefix _ _ _ P Hi)].
  - intros fuel method options.
    destruct (mergeOptions_fresh fuel method options h Hi) as (E & P & L).
    repeat (split; [assumption|]). intros key.
    pose proof (mergeOptions_shares defaultOptions fuel method options h Hi key) as S.
    split; [exact S|].
    pose proof (installed_bound defaultOptions h Hi) as HD.
    destruct Hi as (hl & HDo & Hhl).
    assert (Hhllt : hl < length h) by (apply lookup_lt_is_Some; eauto).
    split; intros Eq.
    + destruct (S defaultOptions Eq HD) as (C & _). rewrite Eq in C.
      unfold has_class, deref in C. now rewrite HDo in C.
    + assert (Er : read h defaultOptions "headers" = VRef hl).
      { unfold read. rewrite HDo. reflexivity. }
      rewrite Er in Eq. destruct (S hl Eq Hhllt) as (C & _). rewrite Eq in C.
      unfold has_class, deref in C. now rewrite Hhl in C.
Qed.

End Calls.

Lemma load_installed :
  installed 1 (fst (load [])).
Proof. exists 0. split; reflexivity. Qed.

Lemma defaultOptions_never_mutated_witness :
  installed 1 (fst (load []))
  /\ Forall (fun h' => fst (load []) `prefix_of` h' /\ installed 1 h')
       (run 1 [ New {| class := Plain; fields := [("method", VStr "PATCH")] |};
                Call (CallGet 4 "/api/v2/EntityType" (VRef 2));
                Call (CallPostFile "/upload" (FileText "a,b"));
                Call (CallDelete 4 "/api/v2/EntityType/1" (VRef 1)) ]
            (fst (load []))).
Proof.
  split; [exists 0; split; reflexivity|].
  apply (proj1 (defaultOptions_never_mutated 1 (fst (load []))
                  (ex_intro _ 0 (conj eq_refl eq_refl)))).
Defined.

(** ** Enough fuel *)

Lemma stack_get_None (st : stack) l : stack_get st l = None -> ~ In l (map fst st).
Proof.
  induction st as [|[l' v] st IH]; simpl; [tauto|].
  destruct (Nat.eqb_spec l' l) as [->|Hne]; [discriminate|].
  intros H [E|Hin]; [congruence|]. now apply IH.
Qed.

Lemma stack_ok_length n (st : stack) : stack_ok n st -> length st <= n.
Proof.
  intros (Hnd & Hlt).
  assert (H : length (map fst st) <= length (seq 0 n)).
  { apply NoDup_incl_length; [now apply NoDup_ListNoDup|].
    intros l Hl. apply in_seq. rewrite Forall_forall in Hlt.
    specialize (Hlt l). rewrite <- list_elem_of_In in Hl. specialize (Hlt Hl). lia. }
  now rewrite length_map, length_seq in H.
Qed.

Lemma stack_ok_push n (st : stack) l v :
  stack_ok n st -> l < n -> stack_get st l = None -> stack_ok n ((l, v) :: st).
Proof.
  intros (Hnd & Hlt) Hl Hget. split; simpl.
  - constructor; [|exact Hnd]. rewrite list_elem_of_In. now apply stack_get_None.
  - now constructor.
Qed.

Section Enough.

Variable h0 : heap.
Hypothesis Hclosed : closed h0.
Local Abbreviation n0 := (length h0).

Lemma source_closed h s key src :
  below n0 h0 h -> s < n0 -> read h s key = VRef src -> src < n0.
Proof.
  intros (_ & F) Hs E. apply (Hclosed s key).
  rewrite <- E. symmetry. apply read_lookup. now apply F.
Qed.

Lemma below_alloc h o : below n0 h0 h -> below n0 h0 (h ++ [o]).
Proof.
  intros (L & F). split; [rewrite length_app; lia|].
  intros l Hl. rewrite lookup_app_l by lia. now apply F.
Qed.

Lemma below_modifies h h' c ks :
  below n0 h0 h -> n0 <= c -> modifies c ks h h' -> below n0 h0 h'.
Proof.
  intros (L & F) Hc (L' & F' & _). split; [lia|].
  intros l Hl. rewrite F' by lia. now apply F.
Qed.

Section Step.

Variable fuel : nat.
Hypothesis IH : enough h0 fuel.

Lemma baseMergeDeep_enough h c s key st :
  below n0 h0 h -> s < n0 -> c < length h ->
  simple_value n0 h c key ->
  stack_ok n0 st -> n0 < S fuel + length st ->
  baseMergeDeep (baseMerge fuel) h c s key st
  = baseMergeDeep (baseMerge (S fuel)) h c s key st.
Proof.
  intros Hb Hs Hc Hv Hst Hfuel. unfold baseMergeDeep.
  destruct (read h s key) as [| | | | |src] eqn:Esrc; try reflexivity.
  destruct (stack_get st src) eqn:Eget; [reflexivity|].
  pose proof (source_closed h s key src Hb Hs Esrc) as Hsrc.
  pose proof (stack_ok_push n0 st src) as Hpush.
  assert (New : forall o nv, fields o = [] ->
            baseMerge fuel (h ++ [o]) (length h) src ((src, nv) :: st)
            = baseMerge (S fuel) (h ++ [o]) (length h) src ((src, nv) :: st)).
  { intros o nv Ho. apply IH; auto.
    - now apply below_alloc.
    - destruct Hb; lia.
    - rewrite length_app; simpl; lia.
    - intros k _. now rewrite read_fresh.
    - simpl. lia. }
  destruct Hv as [Hprim|(t & Ht & Hn & Hlt & Hcls & Htext)].
  - unfold isArray at 2 4.
    rewrite (has_class_primitive h _ Array Hprim),
      (isArrayLikeObject_primitive h _ Hprim), Hprim.
    cbn [andb alloc].
    destruct (isArray h (VRef src)); [now rewrite New|].
    destruct (isPlainObject h (VRef src)); [now rewrite New|reflexivity].
  - destruct (has_class_Plain _ _ Hcls) as (Harr & Hfun).
    rewrite Ht. unfold isArray at 2 4. rewrite Harr.
    unfold isArrayLikeObject, isFunction.
    rewrite Hfun, (is_text_length _ (Htext "length")).
    cbn [negb andb isObject alloc].
    destruct (isArray h (VRef src)); [now rewrite New|].
    destruct (isPlainObject h (VRef src)); [|reflexivity].
    rewrite IH; auto.
    + intros k _. apply is_text_primitive, Htext.
    + simpl. lia.
Qed.

End Step.

Lemma loop_enough fuel (IH : enough h0 fuel) c s st (ks : list string) : forall h,
  NoDup ks -> below n0 h0 h -> s < n0 -> n0 <= c -> c < length h ->
  (forall k, In k ks -> isObject (read h c k) = false) ->
  stack_ok n0 st -> n0 < S fuel + length st ->
  fold_left
    (fun h key =>
       let srcValue := read h s key in
       if isObject srcValue
       then baseMergeDeep (baseMerge fuel) h c s key st
       else assignMergeValue h c key srcValue) ks h
  = fold_left
      (fun h key =>
         let srcValue := read h s key in
         if isObject srcValue
         then baseMergeDeep (baseMerge (S fuel)) h c s key st
         else assignMergeValue h c key srcValue) ks h.
Proof.
  induction ks as [|key ks IHks]; intros h Hnd Hb Hs Hn Hc Hobj Hst Hfuel;
    [reflexivity|].
  apply NoDup_cons in Hnd as [Hkey Hnd]. cbn [fold_left].
  assert (Hstep : baseMergeDeep (baseMerge fuel) h c s key st
                  = baseMergeDeep (baseMerge (S fuel)) h c s key st).
  { apply baseMergeDeep_enough; auto. left. apply Hobj. now left. }
  cbv zeta. rewrite <- Hstep.
  set (h1 := if isObject (read h s key) then _ else _).
  assert (M : modifies c [key] h h1).
  { subst h1. destruct (isObject (read h s key)).
    - apply baseMergeDeep_fresh; [apply baseMerge_fresh|exact Hc|].
      apply Hobj. now left.
    - apply modifies_assign. }
  apply IHks; auto.
  - exact (below_modifies _ _ _ _ Hb Hn M).
  - destruct M; lia.
  - destruct M as (_ & _ & R). intros k Hk. rewrite R; [apply Hobj; now right|].
    intros [->|[]]. apply Hkey. now apply list_elem_of_In.
Qed.

Lemma baseMerge_enough fuel : enough h0 fuel.
Proof.
  induction fuel as [|fuel IH]; intros h c s st Hb Hs Hn Hc Hobj Hst Hfuel.
  - pose proof (stack_ok_length _ _ Hst). simpl in Hfuel. lia.
  - cbn [baseMerge]. destruct (Nat.eqb c s); [reflexivity|].
    apply loop_enough; auto. apply NoDup_keysIn.
Qed.


Lemma config_loop_enough fuel d s st (ks : list string) : forall h,
  NoDup ks -> below n0 h0 h -> s < n0 -> n0 <= d -> d < length h ->
  (forall k, In k ks -> config_value d h k) ->
  stack_ok n0 st -> n0 < S fuel + length st ->
  fold_left
    (fun h key =>
       let srcValue := read h s key in
       if isObject srcValue
       then baseMergeDeep (baseMerge fuel) h d s key st
       else assignMergeValue h d key srcValue) ks h
  = fold_left
      (fun h key =>
         let srcValue := read h s key in
         if isObject srcValue
         then baseMergeDeep (baseMerge (S fuel)) h d s key st
         else assignMergeValue h d key srcValue) ks h.
Proof.
  induction ks as [|key ks IHks]; intros h Hnd Hb Hs Hn Hd Hv Hst Hfuel;
    [reflexivity|].
  apply NoDup_cons in Hnd as [Hkey Hnd]. cbn [fold_left].
  assert (Hstep : baseMergeDeep (baseMerge fuel) h d s key st
                  = baseMergeDeep (baseMerge (S fuel)) h d s key st).
  { apply baseMergeDeep_enough; auto; [apply baseMerge_enough|].
    destruct (Hv key) as [Hp|(_ & Hobj & Ht)]; [now left|now left|].
    right. exists (S d). repeat split; auto; try lia; apply Ht. }
  cbv zeta. rewrite <- Hstep.
  set (h1 := if isObject (read h s key) then _ else _).
  assert (M : config_step d key h h1).
  { subst h1. destruct (isObject (read h s key)).
    - apply baseMergeDeep_config; [exact Hd|]. apply Hv. now left.
    - apply modifies_config_step; [exact Hd|apply modifies_assign]. }
  apply IHks; auto.
  - destruct Hb as (L & F), M as (L' & F' & _). split; [lia|].
    intros l Hl. rewrite F' by lia. now apply F.
  - destruct M; lia.
  - intros k Hk. apply (config_value_step d key k h h1); [exact Hd| |exact M|].
    + intros ->. apply Hkey. now apply list_elem_of_In.
    + apply Hv. now right.
Qed.

Lemma config_enough fuel d s st h :
  below n0 h0 h -> s < n0 -> n0 <= d ->
  config_shape d h ->
  stack_ok n0 st -> n0 < fuel + length st ->
  baseMerge fuel h d s st = baseMerge (S fuel) h d s st.
Proof.
  intros Hb Hs Hn (Hd & Hk & Hh) Hst Hfuel.
  destruct fuel as [|fuel].
  - pose proof (stack_ok_length _ _ Hst). simpl in Hfuel. lia.
  - cbn [baseMerge]. destruct (Nat.eqb d s); [reflexivity|].
    apply config_loop_enough; auto; [apply NoDup_keysIn|].
    intros k _. destruct (String.eqb_spec k "headers") as [->|Hne].
    + destruct Hh as [Hp|(Hobj & Ht)]; [now left|now right].
    + left. now apply Hk.
Qed.

End Enough.

(** More fuel than the store has objects is enough: the configuration and
    the store [mergeOptions] returns no longer depend on the fuel. *)
Lemma mergeOptions_enough defaultOptions (h : heap) method options :
  closed h ->
  installed defaultOptions h ->
  (forall l, options = VRef l -> l < length h) ->
  forall fuel, length h < fuel ->
  mergeOptions defaultOptions fuel method options h
  = mergeOptions defaultOptions (S (length h)) method options h.
Proof.
  intros Hcl Hi Hopt.
  assert (Step : forall fuel, length h < fuel ->
            mergeOptions defaultOptions fuel method options h
            = mergeOptions defaultOptions (S fuel) method options h).
  { intros fuel Hfuel. unfold mergeOptions. cbn [alloc merge fold_left]. f_equal.
    set (h1 := h ++ [{| class := Plain; fields := [("method", VStr method)] |}]).
    assert (B1 : below (length h) h h1).
    { split; [subst h1; rewrite length_app; simpl; lia|].
      intros l Hl. now apply lookup_app_l. }
    assert (Hl1 : length h1 = S (length h))
      by (subst h1; rewrite length_app; simpl; lia).
    assert (Ok : stack_ok (length h) []) by (split; constructor).
    assert (E1 : merge_source fuel h1 (length h) (VRef defaultOptions)
                 = merge_source (S fuel) h1 (length h) (VRef defaultOptions)).
    { cbn [merge_source truthy].
      apply (baseMerge_enough h Hcl); auto.
      - exact (installed_bound defaultOptions h Hi).
      - lia.
      - intros k _. apply is_text_primitive, new_config_text.
      - simpl. lia. }
    rewrite <- E1.
    set (h2 := merge_source fuel h1 (length h) (VRef defaultOptions)).
    assert (B2 : below (length h) h h2).
    { apply (below_trans _ _ h1); [exact B1|].
      destruct (defaults_frame defaultOptions h method fuel) as (L & F & _).
      split; [exact L|]. intros l Hl. apply F; [|lia].
      rewrite length_app. simpl. lia. }
    unfold merge_source. destruct (truthy options); [|reflexivity].
    destruct options as [| | | | |src]; try reflexivity.
    apply (config_enough h Hcl); auto.
    - apply (defaults_shape defaultOptions h method Hi).
    - simpl. lia. }
  intros fuel Hfuel.
  induction fuel as [|fuel IH]; [lia|].
  destruct (decide (fuel = length h)) as [->|Hne]; [reflexivity|].
  rewrite <- Step by lia. apply IH. lia.
Qed.


Lemma load_closed : closed (fst (load [])).
Proof.
  intros l key l'. unfold read.
  destruct l as [|[|l]];
    cbn [load alloc fst lookup list_lookup app length default_headers
         default_options fields get_prop].
  - repeat match goal with
           | |- context [String.eqb ?a key] => destruct (String.eqb a key)
           end; discriminate.
  - repeat match goal with
           | |- context [String.eqb ?a key] => destruct (String.eqb a key)
           end; try discriminate. intros [= <-]. lia.
  - destruct l; discriminate.
Qed.

(** In the store that holds the loaded module and nothing else, every
    fuel above 2 gives the configuration that fuel 3 gives. *)
Lemma mergeOptions_enough_loaded (method : string) (fuel : nat) :
  2 < fuel ->
  mergeOptions 1 fuel method VUndefined (fst (load []))
  = mergeOptions 1 3 method VUndefined (fst (load [])).
Proof.
  intros Hfuel.
  apply (mergeOptions_enough 1 (fst (load [])) method VUndefined
           load_closed load_installed); [discriminate|exact Hfuel].
Qed.

End StoreFacts.

(** The store model and the tree model build the same configuration on
    sample options. *)
Lemma config_of_samples :
  Store.config_of 4 "GET" JUndefined = mergeOptions "GET" JUndefined
  /\ Store.config_of 4 "GET" accept_text_plain
     = mergeOptions "GET" accept_text_plain
  /\ Store.config_of 4 "POST" method_undefined
     = mergeOptions "POST" method_undefined
  /\ Store.config_of 6 "PUT" Store.sample_body = mergeOptions "PUT" Store.sample_body
  /\ Store.config_of 6 "DELETE" Store.sample_array_headers
     = mergeOptions "DELETE" Store.sample_array_headers
  /\ Store.config_of 6 "POST" Store.sample_host_body
     = mergeOptions "POST" Store.sample_host_body
  /\ Store.config_of 4 "GET" (JStr "ab") = mergeOptions "GET" (JStr "ab").
Proof. repeat split; vm_compute; reflexivity. Qed.

(** * The exported client: what a call does

    Every operation of [molgenisApiClient] is one dispatch followed by
    [handleResponse]. *)
Lemma call_pipeline
  (transport : string -> JsVal -> trace -> Settled Response) (c : Call) (t : trace) :
  molgenisApiClient transport c t
  = then_ (fetch transport (call_url c) (call_config c)) handleResponse t.
Proof.
  destruct c; cbn [molgenisApiClient call_url call_config];
    unfold get, post, put, delete_, postFile; apply then_identity.
Qed.

(** X1. When the transport rejects the request (a network failure), each
    of the five operations rejects with the transport's reason unchanged,
    after the one dispatch and without decoding anything. *)
Theorem transport_failure_propagates
  (transport : string -> JsVal -> trace -> Settled Response)
  (c : Call) (t : trace) (reason : Value) :
  transport (call_url c) (call_config c) t = Rejected reason ->
  molgenisApiClient transport c t
  = (t ++ [Dispatched (call_url c) (call_config c)], Rejected reason).
Proof.
  intros E. rewrite call_pipeline. unfold then_, fetch. now rewrite E.
Qed.

Lemma transport_failure_propagates_witness :
  molgenisApiClient (failing (ErrorValue "TypeError" "Failed to fetch"))
    (PostFile "/upload" (FileText "a,b")) []
  = ([Dispatched "/upload" (call_config (PostFile "/upload" (FileText "a,b")))],
     Rejected (ErrorValue "TypeError" "Failed to fetch")).
Proof.
  apply (transport_failure_propagates
           (failing (ErrorValue "TypeError" "Failed to fetch"))
           (PostFile "/upload" (FileText "a,b")) []).
  reflexivity.
Defined.

(** X2. A call whose request the transport answers adds to the trace one
    dispatch, of its url and configuration, followed by one decoding of
    the body exactly when the response is a JSON response: no second
    request, and no decoding of a response that is not JSON. *)
Theorem call_events
  (transport : string -> JsVal -> trace -> Settled Response)
  (c : Call) (t : trace) (response : Response) :
  transport (call_url c) (call_config c) t = Fulfilled response ->
  fst (molgenisApiClient transport c t)
  = t ++ Dispatched (call_url c) (call_config c)
         :: (if isJsonResponse response then [BodyDecoded response] else []).
Proof.
  intros E. rewrite call_pipeline. unfold then_, fetch. rewrite E.
  unfold handleResponse, then_, Response_json, Promise_resolve, Promise_reject.
  destruct (isJsonResponse response).
  - rewrite <- app_assoc. now destruct (body response), (ok response).
  - now destruct (ok response).
Qed.

Lemma call_events_witness :
  fst (molgenisApiClient (always (json_response 404 "application/json" ds16_error))
         (Delete "/api/v2/x/1" JUndefined) [])
  = [ Dispatched "/api/v2/x/1" (mergeOptions "DELETE" JUndefined);
      BodyDecoded (json_response 404 "application/json" ds16_error) ].
Proof.
  apply (call_events (always (json_response 404 "application/json" ds16_error))
           (Delete "/api/v2/x/1" JUndefined) []
           (json_response 404 "application/json" ds16_error)).
  reflexivity.
Defined.

(** X3. A call resolves only if the transport answered with a response
    whose status is in 200..299; the value is then the decoded body of a
    JSON response, or the response itself when it is not JSON. *)
Theorem call_resolves_only_on_success
  (transport : string -> JsVal -> trace -> Settled Response)
  (c : Call) (t : trace) (value : Value) :
  snd (molgenisApiClient transport c t) = Fulfilled value ->
  exists response,
    transport (call_url c) (call_config c) t = Fulfilled response
    /\ ok response = true
    /\ (if isJsonResponse response
        then exists json, body response = Decoded json /\ value = JsonValue json
        else value = RawResponse response).
Proof.
  rewrite call_pipeline. unfold then_, fetch.
  destruct (transport (call_url c) (call_config c) t) as [response|reason];
    [|discriminate].
  intros H. exists response. split; [reflexivity|].
  unfold handleResponse, then_, Response_json, Promise_resolve, Promise_reject in H.
  destruct (isJsonResponse response).
  - destruct (body response) as [json|message]; [|discriminate].
    destruct (ok response); [|discriminate].
    injection H as <-. split; [reflexivity|]. now exists json.
  - destruct (ok response); [|discriminate]. injection H as <-. now split.
Qed.

Lemma call_resolves_only_on_success_witness :
  exists response,
    always (json_response 200 "text/csv" JNull) "/api/v2/x"
      (mergeOptions "GET" JUndefined) [] = Fulfilled response
    /\ ok response = true
    /\ (if isJsonResponse response
        then exists json, body response = Decoded json
                          /\ RawResponse (json_response 200 "text/csv" JNull)
                             = JsonValue json
        else RawResponse (json_response 200 "text/csv" JNull) = RawResponse response).
Proof.
  apply (call_resolves_only_on_success
           (always (json_response 200 "text/csv" JNull))
           (Get "/api/v2/x" JUndefined) []
           (RawResponse (json_response 200 "text/csv" JNull))).
  reflexivity.
Defined.

(** X4. A call answered with a response whose body decodes (or that is
    not JSON) settles by the status alone: it resolves with the payload
    when the status is in 200..299 and rejects with the same payload
    otherwise, the payload being the decoded body of a JSON response and
    the response itself when it is not JSON. *)
Theorem call_settles_by_status
  (transport : string -> JsVal -> trace -> Settled Response)
  (c : Call) (t : trace) (response : Response) (payload : Value) :
  transport (call_url c) (call_config c) t = Fulfilled response ->
  (if isJsonResponse response
   then exists json, body response = Decoded json /\ payload = JsonValue json
   else payload = RawResponse response) ->
  snd (molgenisApiClient transport c t)
  = if ok response then Fulfilled payload else Rejected payload.
Proof.
  intros E P. rewrite call_pipeline. unfold then_, fetch. rewrite E.
  unfold handleResponse, then_, Response_json, Promise_resolve, Promise_reject.
  destruct (isJsonResponse response).
  - destruct P as (json & D & ->). rewrite D. now destruct (ok response).
  - subst payload. now destruct (ok response).
Qed.

Lemma call_settles_by_status_witness :
  snd (molgenisApiClient
         (always (json_response 404 "Application/JSON; charset=UTF-8" ds16_error))
         (Put "/api/v2/x" (JObj Plain [("body", JStr "{}")])) [])
  = Rejected (JsonValue ds16_error).
Proof.
  apply (call_settles_by_status
           (always (json_response 404 "Application/JSON; charset=UTF-8" ds16_error))
           (Put "/api/v2/x" (JObj Plain [("body", JStr "{}")])) []
           (json_response 404 "Application/JSON; charset=UTF-8" ds16_error)
           (JsonValue ds16_error)).
  - reflexivity.
  - exists ds16_error. split; reflexivity.
Defined.

(** X5. A call answered with a JSON response whose body does not decode
    rejects with the decoder's [SyntaxError], whatever the status: also a
    response with status 200 is rejected then, and the reason is neither
    the response nor a decoded value. *)
Theorem call_rejects_malformed_json
  (transport : string -> JsVal -> trace -> Settled Response)
  (c : Call) (t : trace) (response : Response) (message : string) :
  transport (call_url c) (call_config c) t = Fulfilled response ->
  isJsonResponse response = true ->
  body response = Malformed message ->
  snd (molgenisApiClient transport c t)
  = Rejected (ErrorValue "SyntaxError" message).
Proof.
  intros E J D. rewrite call_pipeline. unfold then_, fetch. rewrite E.
  unfold handleResponse, then_, Response_json.
  now rewrite J, D.
Qed.

Lemma call_rejects_malformed_json_witness :
  snd (molgenisApiClient (always (malformed_response 200 "Unexpected token <"))
         (Get "/api/v2/x" JUndefined) [])
  = Rejected (ErrorValue "SyntaxError" "Unexpected token <").
Proof.
  apply (call_rejects_malformed_json
           (always (malformed_response 200 "Unexpected token <"))
           (Get "/api/v2/x" JUndefined) []
           (malformed_response 200 "Unexpected token <") "Unexpected token <");
    reflexivity.
Defined.

(** * The normalised content type *)

(** [isJsonResponse] compares [normalizedContentType] of the header value
    with the two JSON types. *)
Lemma isJsonResponse_normalized (response : Response) (contentType : string) :
  Headers_get (headers response) "content-type" = Some contentType ->
  isJsonResponse response
  = if String.eqb contentType "" then false
    else String.eqb (normalizedContentType contentType) "application/json"
         || String.eqb (normalizedContentType contentType)
              "application/json;charset=utf-8".
Proof. intros E. unfold isJsonResponse. now rewrite E. Qed.

Lemma normalizedContentType_spec (v : string) :
  normalizedContentType v = spec_normalize v.
Proof. unfold normalizedContentType, spec_normalize. now rewrite !join_split. Qed.

Lemma lower_char_idem (c : ascii) : Str.lower_char (Str.lower_char c) = Str.lower_char c.
Proof. destruct c as [[] [] [] [] [] [] [] []]; reflexivity. Qed.

Lemma lower_char_space (c : ascii) :
  Ascii.eqb (Str.lower_char c) Str.space = Ascii.eqb c Str.space.
Proof. destruct c as [[] [] [] [] [] [] [] []]; reflexivity. Qed.

Lemma lower_char_dquote (c : ascii) :
  Ascii.eqb (Str.lower_char c) Str.dquote = Ascii.eqb c Str.dquote.
Proof. destruct c as [[] [] [] [] [] [] [] []]; reflexivity. Qed.

Lemma toLowerCase_idem (s : string) :
  Str.toLowerCase (Str.toLowerCase s) = Str.toLowerCase s.
Proof.
  induction s as [|c s IH]; [reflexivity|]. cbn [Str.toLowerCase].
  now rewrite lower_char_idem, IH.
Qed.

Lemma toLowerCase_remove_char (sep : ascii) (s : string) :
  (forall c, Ascii.eqb (Str.lower_char c) sep = Ascii.eqb c sep) ->
  Str.toLowerCase (Str.remove_char sep s) = Str.remove_char sep (Str.toLowerCase s).
Proof.
  intros H. induction s as [|c s IH]; [reflexivity|].
  cbn [Str.toLowerCase Str.remove_char]. rewrite H.
  destruct (Ascii.eqb c sep); [exact IH|].
  cbn [Str.toLowerCase]. now rewrite IH.
Qed.

Lemma occurs_remove_same (c : ascii) (s : string) :
  Str.occurs c (Str.remove_char c s) = false.
Proof.
  induction s as [|d s IH]; [reflexivity|]. cbn [Str.remove_char].
  destruct (Ascii.eqb d c) eqn:E; [exact IH|].
  cbn [Str.occurs]. now rewrite E, IH.
Qed.

Lemma occurs_remove_false (c d : ascii) (s : string) :
  Str.occurs c s = false -> Str.occurs c (Str.remove_char d s) = false.
Proof.
  induction s as [|e s IH]; [reflexivity|]. cbn [Str.occurs Str.remove_char].
  intros H. apply orb_false_iff in H as [He Hs].
  destruct (Ascii.eqb e d); [now apply IH|].
  cbn [Str.occurs]. now rewrite He, IH.
Qed.

Lemma remove_char_absent (c : ascii) (s : string) :
  Str.occurs c s = false -> Str.remove_char c s = s.
Proof.
  induction s as [|d s IH]; [reflexivity|]. cbn [Str.occurs Str.remove_char].
  intros H. apply orb_false_iff in H as [Hd Hs]. now rewrite Hd, IH.
Qed.

Lemma toLowerCase_app (a b : string) :
  Str.toLowerCase (a ++ b) = (Str.toLowerCase a ++ Str.toLowerCase b)%string.
Proof.
  induction a as [|c a IH]; [reflexivity|].
  change (String c a ++ b)%string with (String c (a ++ b)).
  cbn [Str.toLowerCase]. rewrite IH. reflexivity.
Qed.

Lemma remove_char_app (c : ascii) (a b : string) :
  Str.remove_char c (a ++ b) = (Str.remove_char c a ++ Str.remove_char c b)%string.
Proof.
  induction a as [|d a IH]; [reflexivity|].
  change (String d a ++ b)%string with (String d (a ++ b)).
  cbn [Str.remove_char]. destruct (Ascii.eqb d c); [exact IH|].
  rewrite IH. reflexivity.
Qed.

Lemma spec_normalize_insert (c : ascii) (a b : string) :
  c = Str.space \/ c = Str.dquote ->
  spec_normalize (a ++ String c b) = spec_normalize (a ++ b).
Proof.
  intros Hc. unfold spec_normalize.
  rewrite !toLowerCase_app, !remove_char_app.
  destruct Hc as [->| ->]; reflexivity.
Qed.

(** X6. The normalised content type is in normal form for every header
    value: normalising it again changes nothing, and it holds no space,
    no double quote and no upper-case letter A..Z. *)
Theorem normalizedContentType_canonical (contentType : string) :
  normalizedContentType (normalizedContentType contentType)
  = normalizedContentType contentType
  /\ Str.occurs Str.space (normalizedContentType contentType) = false
  /\ Str.occurs Str.dquote (normalizedContentType contentType) = false
  /\ Str.toLowerCase (normalizedContentType contentType)
     = normalizedContentType contentType.
Proof.
  rewrite !normalizedContentType_spec.
  assert (Hs : Str.occurs Str.space (spec_normalize contentType) = false).
  { unfold spec_normalize. apply occurs_remove_false, occurs_remove_same. }
  assert (Hq : Str.occurs Str.dquote (spec_normalize contentType) = false).
  { unfold spec_normalize. apply occurs_remove_same. }
  assert (Hl : Str.toLowerCase (spec_normalize contentType) = spec_normalize contentType).
  { unfold spec_normalize.
    rewrite !toLowerCase_remove_char by (apply lower_char_dquote || apply lower_char_space).
    now rewrite toLowerCase_idem. }
  repeat split; try assumption.
  unfold spec_normalize at 1. rewrite Hl.
  now rewrite (remove_char_absent _ _ Hs), (remove_char_absent _ _ Hq).
Qed.

(** X7. [isJsonResponse] does not see a space or a double quote, wherever
    it stands in the header value, nor the case of the letters: a
    response whose content type is [a ++ c :: b] with [c] a space or a
    double quote is classified as any response whose content type equals
    [a ++ b] up to case. *)
Theorem content_type_noise_ignored
  (r1 r2 : Response) (a b : string) (c : ascii) (contentType : string) :
  c = Str.space \/ c = Str.dquote ->
  Headers_get (headers r1) "content-type" = Some (a ++ String c b)%string ->
  Headers_get (headers r2) "content-type" = Some contentType ->
  Str.toLowerCase contentType = Str.toLowerCase (a ++ b) ->
  isJsonResponse r1 = isJsonResponse r2.
Proof.
  intros Hc E1 E2 Hl.
  rewrite (isJsonResponse_spec r1 _ E1), (isJsonResponse_spec r2 _ E2).
  rewrite spec_normalize_insert by exact Hc.
  unfold spec_normalize. now rewrite Hl.
Qed.

Lemma content_type_noise_ignored_witness :
  isJsonResponse
    (typed_response ("application/json;" ++ String Str.space "charset=utf-8"))
  = isJsonResponse (typed_response "Application/JSON;Charset=UTF-8").
Proof.
  apply (content_type_noise_ignored
           (typed_response ("application/json;" ++ String Str.space "charset=utf-8"))
           (typed_response "Application/JSON;Charset=UTF-8")
           "application/json;" "charset=utf-8" Str.space
           "Application/JSON;Charset=UTF-8");
    [now left|reflexivity|reflexivity|reflexivity].
Defined.

(** * The configuration for any options *)

Lemma mergeOptions_any (method : string) (options : JsVal) :
  mergeOptions method options
  = JObj Plain
      (if truthy options
       then fold_left
              (fun (object : props) (p : string * JsVal) =>
                 let (key, v) := p in
                 assignMergeValue object key (mergeValue (read_prop key object) v))
              (own_props options) (base_config method)
       else base_config method).
Proof. unfold mergeOptions, merge. cbn [fold_left]. now destruct (truthy options). Qed.

Section LoopRelations.

Variable f : JsVal -> JsVal -> JsVal.

Local Abbreviation loop :=
  (fold_left (fun (object : props) (p : string * JsVal) =>
                let (key, v) := p in
                assignMergeValue object key (f (read_prop key object) v))).

(** Two targets that agree away from [key0] still do after the loop. *)
Lemma loop_agree (key0 : string) (sps : props) : forall o1 o2 : props,
  (forall k, k <> key0 -> get_prop k o1 = get_prop k o2) ->
  forall k, k <> key0 -> get_prop k (loop sps o1) = get_prop k (loop sps o2).
Proof.
  induction sps as [|[key v] sps IH]; intros o1 o2 H; [exact H|].
  cbn [fold_left]. apply IH. intros k Hk.
  destruct (String.eqb_spec key k) as [<-|Hne].
  - rewrite !assign_get_eq. unfold read_prop. now rewrite (H key Hk).
  - rewrite !assign_get_ne by exact Hne. now apply H.
Qed.

Lemma assign_defined (object : props) (k key : string) (v : JsVal) :
  is_defined (get_prop key object) = true ->
  is_defined (get_prop key (assignMergeValue object k v)) = true.
Proof.
  intros H. destruct (String.eqb_spec k key) as [->|Hne].
  - rewrite assign_get_eq. unfold assigned.
    destruct v; try reflexivity. now destruct (get_prop key object).
  - now rewrite assign_get_ne.
Qed.

Lemma loop_defined (key : string) (sps : props) : forall object : props,
  is_defined (get_prop key object) = true ->
  is_defined (get_prop key (loop sps object)) = true.
Proof.
  induction sps as [|[k v] sps IH]; intros object H; [exact H|].
  cbn [fold_left]. apply IH. now apply assign_defined.
Qed.

End LoopRelations.

Lemma base_value_primitive (method key : string) :
  key <> "headers" -> isObject (read_prop key (base_config method)) = false.
Proof.
  intros Hk. unfold read_prop.
  change (base_config method)
    with [ ("method", JStr method);
           ("headers", read_prop "headers" (own_props defaultOptions));
           ("credentials", JStr "same-origin") ].
  cbn [get_prop].
  destruct (String.eqb "method" key); [reflexivity|].
  destruct (String.eqb_spec "headers" key); [congruence|].
  now destruct (String.eqb "credentials" key).
Qed.

Lemma baseMergeDeep_target (o o' : JsVal) (k : kind) (sps : props) :
  mergeTarget o k = mergeTarget o' k ->
  baseMergeDeep o (JObj k sps) = baseMergeDeep o' (JObj k sps).
Proof.
  intros E. destruct k; cbn [baseMergeDeep]; try reflexivity; now rewrite E.
Qed.

(** X8. Options that are not an object and not a non-empty string
    ([undefined], [null], a boolean, a number, the empty string) change
    nothing: the configuration is the method with the defaults. *)
Theorem primitive_options_ignored (method : string) (options : JsVal) :
  isObject options = false ->
  (forall c s, options <> JStr (String c s)) ->
  mergeOptions method options = default_config method.
Proof.
  intros Ho Hs. destruct options as [| |[|]|n|[|c s]|]; try reflexivity.
  - unfold mergeOptions, merge. cbn [fold_left truthy].
    now destruct (n =? 0)%Z.
  - now destruct (Hs c s).
  - discriminate Ho.
Qed.

Lemma primitive_options_ignored_witness :
  mergeOptions "GET" JNull = default_config "GET".
Proof.
  apply (primitive_options_ignored "GET" JNull); [reflexivity|discriminate].
Defined.

(** X9. For an options object and every key other than [headers], the
    configuration holds at that key the caller's value, unless the caller
    has no such key or its value is [undefined] while the key has a
    default: then it holds what the method and the defaults give. The
    keys [method], [credentials] and [body] are instances. *)
Theorem option_keys_override (method : string) (ps : props) (key : string) :
  wf (JObj Plain ps) = true ->
  key <> "headers" ->
  field key (mergeOptions method (JObj Plain ps))
  = match get_prop key ps with
    | None => get_prop key (base_config method)
    | Some v => assigned (get_prop key (base_config method)) v
    end.
Proof.
  intros Hwf Hk. rewrite wf_JObj in Hwf. apply andb_true_iff in Hwf as [Hd Hps].
  rewrite mergeOptions_object. cbn [field].
  destruct (get_prop key ps) as [v|] eqn:E.
  - rewrite (loop_at mergeValue key v ps _ Hd (get_prop_In _ _ _ E)).
    rewrite mergeValue_clone;
      [reflexivity|exact (wf_props_In _ _ _ Hps (get_prop_In _ _ _ E))|].
    now apply base_value_primitive.
  - rewrite loop_frame; [reflexivity|].
    now rewrite <- has_prop_keys, has_prop_get, E.
Qed.

Lemma option_keys_override_witness :
  field "body" (mergeOptions "POST" (JObj Plain [("body", JStr "{}")]))
  = assigned (get_prop "body" (base_config "POST")) (JStr "{}").
Proof.
  apply (option_keys_override "POST" [("body", JStr "{}")] "body");
    [reflexivity|discriminate].
Defined.

(** X10. Caller headers that are not a plain object and not [undefined]
    ([null], a string, a number, an array, a function, a host object such
    as a Headers instance) replace the default headers as a whole: the
    configuration's headers are the caller's value, and none of the three
    default headers is left unless the caller's value has it. *)
Theorem headers_replaced_wholesale (method : string) (ps : props) (v : JsVal) :
  wf (JObj Plain ps) = true ->
  get_prop "headers" ps = Some v ->
  isPlainObject v = false ->
  v <> JUndefined ->
  field "headers" (mergeOptions method (JObj Plain ps)) = Some v
  /\ forall name, header name (mergeOptions method (JObj Plain ps)) = field name v.
Proof.
  intros Hwf Hh Hp Hu.
  assert (F : field "headers" (mergeOptions method (JObj Plain ps)) = Some v).
  { rewrite wf_JObj in Hwf. apply andb_true_iff in Hwf as [Hd Hps].
    pose proof (wf_props_In _ _ _ Hps (get_prop_In _ _ _ Hh)) as Hwv.
    rewrite mergeOptions_object. cbn [field].
    rewrite (loop_at mergeValue "headers" v ps _ Hd (get_prop_In _ _ _ Hh)).
    assert (M : mergeValue (read_prop "headers" (base_config method)) v = v).
    { destruct v as [| | | | |k sps]; try reflexivity.
      unfold mergeValue. cbn [isObject].
      destruct k as [| | |h]; [discriminate Hp| |reflexivity|reflexivity].
      rewrite (baseMergeDeep_target _ JUndefined Array sps) by reflexivity.
      now apply baseMergeDeep_clone. }
    rewrite M. destruct v; try reflexivity. now destruct Hu. }
  split; [exact F|]. intros name. unfold header. now rewrite F.
Qed.

Lemma headers_replaced_wholesale_witness :
  field "headers" (mergeOptions "GET" (JObj Plain [("headers", JNull)])) = Some JNull
  /\ forall name,
       header name (mergeOptions "GET" (JObj Plain [("headers", JNull)]))
       = field name JNull.
Proof.
  apply (headers_replaced_wholesale "GET" [("headers", JNull)] JNull);
    [reflexivity|reflexivity|reflexivity|discriminate].
Defined.

(** X11. Whatever the options are (an object, an array, a string, a
    primitive; well formed or not), the configuration has a [method], a
    [headers] and a [credentials] property that is not [undefined]: a
    caller can replace these three but cannot remove them. *)
Theorem defaults_stay_defined (method : string) (options : JsVal) :
  is_defined (field "method" (mergeOptions method options)) = true
  /\ is_defined (field "headers" (mergeOptions method options)) = true
  /\ is_defined (field "credentials" (mergeOptions method options)) = true.
Proof.
  rewrite mergeOptions_any. cbn [field].
  destruct (truthy options); [|repeat split; reflexivity].
  repeat split; apply loop_defined; reflexivity.
Qed.

(** X12. The method constant of an operation shows in the [method]
    property of the configuration and nowhere else: for the same options,
    two method constants give configurations that agree at every other
    key, so [get], [post], [put] and [delete_] send the same headers,
    credentials and body. *)
Theorem method_constant_is_local (m1 m2 : string) (options : JsVal) (key : string) :
  key <> "method" ->
  field key (mergeOptions m1 options) = field key (mergeOptions m2 options).
Proof.
  intros Hk. rewrite !mergeOptions_any. cbn [field].
  assert (B : forall k, k <> "method" ->
            get_prop k (base_config m1) = get_prop k (base_config m2)).
  { intros k Hne.
    change (base_config m1) with (("method", JStr m1) :: tl (base_config m1)).
    change (base_config m2) with (("method", JStr m2) :: tl (base_config m1)).
    cbn [get_prop]. destruct (String.eqb_spec "method" k); [congruence|reflexivity]. }
  destruct (truthy options); [|now apply B].
  now apply (loop_agree mergeValue "method").
Qed.

Lemma method_constant_is_local_witness :
  field "credentials" (mergeOptions "GET" (JObj Plain [("credentials", JStr "include")]))
  = field "credentials" (mergeOptions "PUT" (JObj Plain [("credentials", JStr "include")])).
Proof.
  apply (method_constant_is_local "GET" "PUT"
           (JObj Plain [("credentials", JStr "include")]) "credentials").
  discriminate.
Defined.

(** * The configuration in the store, for any object graph *)

Module StoreExtra.
Import Store StoreFacts.

Implicit Types (h : heap) (l c d : loc) (k key : string) (v : val).

Lemma cyclic_store_installed : installed 1 cyclic_store.
Proof. exists 0. split; reflexivity. Qed.

Lemma cyclic_store_closed : closed cyclic_store.
Proof.
  intros l key l'. unfold read.
  destruct l as [|[|[|l]]];
    cbn [cyclic_store load alloc fst lookup list_lookup app length default_headers
         default_options fields get_prop].
  - repeat match goal with
           | |- context [String.eqb ?a key] => destruct (String.eqb a key)
           end; discriminate.
  - repeat match goal with
           | |- context [String.eqb ?a key] => destruct (String.eqb a key)
           end; try discriminate. intros [= <-]. lia.
  - repeat match goal with
           | |- context [String.eqb ?a key] => destruct (String.eqb a key)
           end; try discriminate; intros [= <-]; lia.
  - destruct l; discriminate.
Qed.

(** One unit of the merge loop leaves the target's other keys alone. *)
Lemma config_loop_read fuel d s st (ks : list string) key0 : forall h,
  NoDup ks ->
  d < length h ->
  (forall k, In k ks -> config_value d h k) ->
  ~ In key0 ks ->
  read
    (fold_left
       (fun h key =>
          let srcValue := read h s key in
          if isObject srcValue
          then baseMergeDeep (baseMerge fuel) h d s key st
          else assignMergeValue h d key srcValue)
       ks h) d key0
  = read h d key0.
Proof.
  induction ks as [|key ks IH]; intros h Hnd Hd Hv Hk; [reflexivity|].
  apply NoDup_cons in Hnd as [Hkey Hnd]. cbn [fold_left].
  set (h1 := if isObject (read h s key) then _ else _).
  assert (M : config_step d key h h1).
  { subst h1. destruct (isObject (read h s key)).
    - apply baseMergeDeep_config; [exact Hd|]. apply Hv. now left.
    - apply modifies_config_step; [exact Hd|apply modifies_assign]. }
  rewrite IH; auto.
  - destruct M as (_ & _ & R & _). apply R. intros ->. apply Hk. now left.
  - destruct M; lia.
  - intros k Hin. apply (config_value_step d key k h h1); [exact Hd| |exact M|].
    + intros ->. apply Hkey. now apply list_elem_of_In.
    + apply Hv. now right.
  - intros Hin. apply Hk. now right.
Qed.

(** X13. [mergeOptions] comes to an end on every object graph, also when
    the caller's options refer to themselves: in a store whose references
    all point into it, every recursion bound above the number of objects
    gives the same store and the same configuration. *)
Theorem mergeOptions_fuel_independent defaultOptions h method options f1 f2 :
  closed h ->
  installed defaultOptions h ->
  (forall l, options = VRef l -> l < length h) ->
  length h < f1 -> length h < f2 ->
  mergeOptions defaultOptions f1 method options h
  = mergeOptions defaultOptions f2 method options h.
Proof.
  intros Hc Hi Ho H1 H2.
  rewrite (mergeOptions_enough defaultOptions h method options Hc Hi Ho f1 H1).
  now rewrite (mergeOptions_enough defaultOptions h method options Hc Hi Ho f2 H2).
Qed.

Lemma mergeOptions_fuel_independent_witness :
  mergeOptions 1 4 "GET" (VRef 2) cyclic_store
  = mergeOptions 1 9 "GET" (VRef 2) cyclic_store.
Proof.
  apply (mergeOptions_fuel_independent 1 cyclic_store "GET" (VRef 2) 4 9
           cyclic_store_closed cyclic_store_installed).
  - intros l [= <-]. cbn. lia.
  - cbn. lia.
  - cbn. lia.
Defined.

(** X14. In the store, for any object graph behind the caller's options,
    shared or cyclic, and any recursion bound: when the options object
    has no [method] key, the [method] of the new configuration is the
    constant of the operation. *)
Theorem store_method_kept defaultOptions h fuel method (o : loc) :
  installed defaultOptions h ->
  o < length h ->
  ~ In "method" (keysIn h o) ->
  read (fst (mergeOptions defaultOptions fuel method (VRef o) h)) (length h) "method"
  = VStr method.
Proof.
  intros Hi Ho Hk. unfold mergeOptions. cbn [alloc fst merge fold_left].
  set (h1 := h ++ [{| class := Plain; fields := [("method", VStr method)] |}]).
  set (h2 := merge_source fuel h1 (length h) (VRef defaultOptions)).
  pose proof (installed_bound defaultOptions h Hi) as HD.
  assert (R1 : read h1 (length h) "method" = VStr method).
  { subst h1. now rewrite read_new. }
  assert (R2 : read h2 (length h) "method" = VStr method).
  { rewrite <- R1.
    destruct (defaults_frame defaultOptions h method fuel) as (_ & _ & R).
    apply R. unfold keysIn. rewrite lookup_app_l by exact HD.
    destruct Hi as (hl & HDo & _). rewrite HDo.
    intros [E|[E|[]]]; discriminate E. }
  pose proof (defaults_shape defaultOptions h method Hi fuel) as (Hd & Hsk & Hsh).
  fold h1 in Hd, Hsk, Hsh. fold h2 in Hd, Hsk, Hsh.
  assert (B2 : h2 !! o = h !! o).
  { destruct (defaults_frame defaultOptions h method fuel) as (_ & F & _).
    fold h1 in F. fold h2 in F. rewrite F; [now apply lookup_app_l| |lia].
    subst h1. rewrite length_app. simpl. lia. }
  cbn [merge_source truthy].
  destruct fuel as [|fuel]; [exact R2|]. cbn [baseMerge].
  destruct (Nat.eqb (length h) o); [exact R2|].
  rewrite config_loop_read; [exact R2|apply NoDup_keysIn|exact Hd| |].
  - intros k _. destruct (String.eqb_spec k "headers") as [->|Hne].
    + destruct Hsh as [Hp|(Hobj & Ht)]; [now left|now right].
    + left. now apply Hsk.
  - unfold keysIn in Hk |- *. now rewrite B2.
Qed.

Lemma store_method_kept_witness :
  read (fst (mergeOptions 1 4 "DELETE" (VRef 2) cyclic_store)) 3 "method"
  = VStr "DELETE".
Proof.
  apply (store_method_kept 1 cyclic_store 4 "DELETE" 2 cyclic_store_installed).
  - cbn. lia.
  - cbn. intros [E|[E|[]]]; discriminate E.
Defined.

End StoreExtra.
